(** * HR Attrition Dashboard (APP.py): filter engine, KPIs and age bins.

    The dashboard is a linear pandas script.  A DataFrame is embedded as the
    ordered list of its rows, a column (Series) as the list of that field
    over the rows, and a boolean mask as a [list bool] in row order.  The
    pandas operations the script calls ([isin], [between], [&], boolean
    indexing, [mean], [round], [int], [pd.cut]) are given as executable
    functions on these lists.

    Numbers: [Age] and [MonthlyIncome] are integer columns ([Z]).  A pandas
    float is either NaN or a finite binary64 number, kept as the rational it
    denotes ([Q]); every float operation of the script rounds its exact
    result to the nearest binary64 number ([Py.fl64]). *)

From Stdlib Require Import List ZArith QArith Qabs Qpower Qreduction.
From Stdlib Require Import Bool String Lia Lqa.
From Stdlib Require Import DecimalString.
From Stdlib Require Import Sorted Permutation.
Import ListNotations.

Local Open Scope string_scope.
Local Open Scope Z_scope.

(** ** Data model *)

(** One employee record, with the columns the modelled statements read. *)
Record Row : Type := mkRow {
  Department : string;
  Gender : string;
  Age : Z;
  Attrition : string;
  MonthlyIncome : Z
}.

Definition DataFrame : Type := list Row.

(** [df['c']]: the column [c] of a frame, in row order. *)
Definition column {A : Type} (c : Row -> A) (df : DataFrame) : list A :=
  map c df.

(** ** Filter engine (APP.py, lines 25-29) *)

Module Series.

(** [s.isin(values)]: elementwise membership in a list of values. *)
Definition isin (s : list string) (values : list string) : list bool :=
  map (fun x => existsb (String.eqb x) values) s.

(** [s.between(left, right)], inclusive on both ends:
    [(left <= s) & (s <= right)]. *)
Definition between (s : list Z) (left right : Z) : list bool :=
  map (fun x => (left <=? x) && (x <=? right)) s.

(** [m1 & m2] on two masks over the same index. *)
Fixpoint and_ (m1 m2 : list bool) : list bool :=
  match m1, m2 with
  | b1 :: t1, b2 :: t2 => (b1 && b2) :: and_ t1 t2
  | _, _ => []
  end.

(** [s == v] for a string column. *)
Definition eq_ (s : list string) (v : string) : list bool :=
  map (fun x => String.eqb x v) s.

End Series.

(** [df[mask]]: boolean indexing keeps the rows whose mask entry is True. *)
Fixpoint getitem_mask (df : DataFrame) (mask : list bool) : DataFrame :=
  match df, mask with
  | r :: df', b :: mask' =>
      if b then r :: getitem_mask df' mask' else getitem_mask df' mask'
  | _, _ => []
  end.

Definition filtered_df (df : DataFrame) (departments genders : list string)
  (age_range : Z * Z) : DataFrame :=
  getitem_mask df
    (Series.and_
       (Series.and_ (Series.isin (column Department df) departments)
                    (Series.isin (column Gender df) genders))
       (Series.between (column Age df) (fst age_range) (snd age_range))).

(** The row predicate of the specification: department and gender selected,
    age within the inclusive bounds. *)
Definition selected (departments genders : list string) (age_min age_max : Z)
  (r : Row) : Prop :=
  In (Department r) departments /\ In (Gender r) genders /\
  age_min <= Age r <= age_max.

Definition selectedb (departments genders : list string) (age_min age_max : Z)
  (r : Row) : bool :=
  existsb (String.eqb (Department r)) departments &&
  existsb (String.eqb (Gender r)) genders &&
  ((age_min <=? Age r) && (Age r <=? age_max)).

(** [sub l1 l2]: [l1] is [l2] with some rows dropped, order kept. *)
Inductive sub {A : Type} : list A -> list A -> Prop :=
| sub_nil : sub [] []
| sub_skip x l1 l2 : sub l1 l2 -> sub l1 (x :: l2)
| sub_keep x l1 l2 : sub l1 l2 -> sub (x :: l1) (x :: l2).

(** ** Floats, exceptions and the KPI expressions (APP.py, lines 52-54) *)

(** A pandas/Python float: NaN or a finite binary64 number, held as the
    rational it denotes. *)
Inductive pyfloat : Type :=
| NaN
| Fin (q : Q).

Inductive exn : Type :=
| ValueError
| FileNotFoundError.

(** Outcome of an expression that may raise. *)
Inductive result (A : Type) : Type :=
| Ok (a : A)
| Raise (e : exn).
Arguments Ok {A} a.
Arguments Raise {A} e.

Definition bind {A B : Type} (m : result A) (f : A -> result B) : result B :=
  match m with
  | Ok a => f a
  | Raise e => Raise e
  end.

Notation "x <- m ;; k" := (bind m (fun x => k))
  (at level 61, m at next level, right associativity).

Module Py.

(** Round half to even of a rational to an integer ([rint]). *)
Definition rint (q : Q) : Z :=
  let n := Qnum q in
  let d := Zpos (Qden q) in
  let fl := n / d in
  let r := n mod d in
  match 2 * r ?= d with
  | Lt => fl
  | Gt => fl + 1
  | Eq => if Z.even fl then fl else fl + 1
  end.

(** Floor of the base-2 logarithm of a positive rational. *)
Definition ilog2 (q : Q) : Z :=
  let l := Z.log2 (Qnum q) - Z.log2 (Zpos (Qden q)) in
  if Qle_bool (2 ^ l) q then l else l - 1.

(** Rounding of a real result to binary64: the nearest number with a 53-bit
    significand, ties to the even significand.  The result is in lowest
    terms.  The exponent range is not limited: the values of the script lie
    far inside it. *)
Definition fl64 (x : Q) : Q :=
  let q := Qred x in
  if Qnum q =? 0 then 0%Q
  else
    let e := ilog2 (Qabs q) - 52 in
    Qred (inject_Z (rint (q * 2 ^ (- e))) * 2 ^ e).

(** [x * k] for a float [x] and an integer literal [k]. *)
Definition mul (x : pyfloat) (k : Z) : pyfloat :=
  match x with
  | NaN => NaN
  | Fin q => Fin (fl64 (q * inject_Z k))
  end.

(** [round(x, ndigits)] on a numpy float, as numpy computes it: multiply by
    [10^ndigits], round to the nearest integer (ties to even), divide by
    [10^ndigits]; NaN stays NaN. *)
Definition round (x : pyfloat) (ndigits : positive) : pyfloat :=
  match x with
  | NaN => NaN
  | Fin q =>
      Fin (fl64 (rint (fl64 (q * inject_Z (Zpos (10 ^ ndigits))))
                 # 10 ^ ndigits))
  end.

(** [int(x)]: truncation toward zero; [int(nan)] raises [ValueError]. *)
Definition int (x : pyfloat) : result Z :=
  match x with
  | NaN => Raise ValueError
  | Fin q => Ok (Z.quot (Qnum q) (Zpos (Qden q)))
  end.

Definition str_Z (z : Z) : string := NilZero.string_of_int (Z.to_int z).

(** [str] of the binary64 number nearest to [k/100]: the decimal itself,
    trailing zeros dropped but one fractional digit kept. *)
Definition str_hundredths (k : Z) : string :=
  let a := Z.abs k in
  let sign := if k <? 0 then "-" else "" in
  let tenths := str_Z (a mod 100 / 10) in
  let hundredths := if a mod 10 =? 0 then "" else str_Z (a mod 10) in
  (sign ++ str_Z (a / 100) ++ "." ++ tenths ++ hundredths)%string.

(** [str(x)] for a float that is NaN or the binary64 number nearest to a
    decimal with at most two fractional digits (the values [round(_, 2)]
    returns). *)
Definition str (x : pyfloat) : string :=
  match x with
  | NaN => "nan"
  | Fin q => str_hundredths (rint (q * inject_Z 100))
  end.

End Py.

Definition sum (s : list Z) : Z := fold_right Z.add 0 s.

(** Total of the magnitudes of a column.  pandas adds an integer column up
    in binary64; while this total is at most 2^53 every running total is an
    integer of magnitude at most 2^53, hence exact, in whatever order numpy
    adds. *)
Definition sum_abs (s : list Z) : Z := sum (map Z.abs s).

(** [s.mean()] of an integer column: NaN on the empty column, otherwise the
    total divided by the count, the quotient rounded to binary64.  The total
    is taken exact (see [sum_abs]); the statements about values carry that
    bound.  The count of a column that fits in memory is below 2^53 and
    converts exactly. *)
Definition mean (s : list Z) : pyfloat :=
  match List.length s with
  | O => NaN
  | S n => Fin (Py.fl64 (sum s # Pos.of_succ_nat n))
  end.

(** [mask.mean()] of a boolean column: True counts 1, False counts 0. *)
Definition mean_bool (m : list bool) : pyfloat := mean (map Z.b2z m).

(** [round(filtered_df["Age"].mean(), 1)] *)
Definition average_age (view : DataFrame) : pyfloat :=
  Py.round (mean (column Age view)) 1.

(** [int(filtered_df["MonthlyIncome"].mean())] *)
Definition average_income (view : DataFrame) : result Z :=
  Py.int (mean (column MonthlyIncome view)).

(** [round((filtered_df['Attrition'] == 'Yes').mean()*100, 2)] *)
Definition attrition_rate (view : DataFrame) : pyfloat :=
  Py.round (Py.mul (mean_bool (Series.eq_ (column Attrition view) "Yes")) 100)
           2.

(** [f"{...}%"]: the text shown by the third metric. *)
Definition attrition_rate_label (view : DataFrame) : string :=
  (Py.str (attrition_rate view) ++ "%")%string.

(** The three metric values in script order; the first exception stops the
    script. *)
Definition kpi_overview (view : DataFrame) : result (pyfloat * Z * string) :=
  let age := average_age view in
  income <- average_income view ;;
  Ok (age, income, attrition_rate_label view).

(** Specification side: number of leavers, and nearness of an integer. *)
Definition count_yes (view : DataFrame) : nat :=
  List.length (filter (fun r => String.eqb (Attrition r) "Yes") view).

Definition nearest_integer (q : Q) (z : Z) : Prop :=
  (Qabs (q - inject_Z z) <= 1 # 2)%Q.

(** The relative error bound of one binary64 rounding: 2^-53. *)
Definition ulp_half : Q := 1 # 9007199254740992.

(** ** Age bins (APP.py, line 125) *)

(** A right-closed interval [(left, right]]. *)
Record Interval : Type := mkInterval { left_ : Z; right_ : Z }.

Definition contains (iv : Interval) (x : Z) : Prop :=
  left_ iv < x <= right_ iv.

Definition age_edges : list Z := [20; 30; 40; 50; 60].

(** [bins.searchsorted(x, side="left")]: first position whose edge is not
    below [x]. *)
Fixpoint searchsorted_left (bins : list Z) (x : Z) : nat :=
  match bins with
  | [] => O
  | b :: bins' => if b <? x then S (searchsorted_left bins' x) else O
  end.

(** The interval labels built from consecutive edges. *)
Fixpoint intervals (bins : list Z) : list Interval :=
  match bins with
  | a :: (b :: _) as bins' => mkInterval a b :: intervals bins'
  | _ => []
  end.

(** [pd.cut(x, bins)] with the defaults [right=True],
    [include_lowest=False]: position 0 and position [len(bins)] are null. *)
Definition cut1 (bins : list Z) (x : Z) : option Interval :=
  let ids := searchsorted_left bins x in
  if ((ids =? 0) || (ids =? List.length bins))%nat then None
  else nth_error (intervals bins) (ids - 1).

Definition cut (s : list Z) (bins : list Z) : list (option Interval) :=
  map (cut1 bins) s.

Definition age_bins (view : DataFrame) : list (option Interval) :=
  cut (column Age view) age_edges.

(** The data of chart 17 (line 126): per row, the bin as [x] (null when the
    age has no bin) and the Attrition value as [color]. *)
Definition fig13_data (view : DataFrame) : list (option Interval * string) :=
  combine (age_bins view) (column Attrition view).

(** ** Data loader (APP.py, lines 9-14) *)

Section Loader.

(** The file as it is on disk at the time of a call, and the parser. *)
Variable File : Type.
Variable read_csv : File -> result DataFrame.

(** The cache of [@st.cache_data] for the argument-free [load_data]: at
    most one entry; [reads] counts the executions of the body. *)
Record Cache : Type := mkCache {
  entry : option DataFrame;
  reads : nat
}.

Definition fresh : Cache := mkCache None 0.

(** One call of the decorated [load_data()]: a hit returns the entry, a
    miss runs the body and stores its value; a raising body stores
    nothing. *)
Definition load_data (disk : File) (c : Cache) : result DataFrame * Cache :=
  match entry c with
  | Some df => (Ok df, c)
  | None =>
      match read_csv disk with
      | Ok df => (Ok df, mkCache (Some df) (S (reads c)))
      | Raise e => (Raise e, mkCache None (S (reads c)))
      end
  end.

(** Successive calls, one per script run, each seeing the disk of its
    time. *)
Fixpoint load_many (disks : list File) (c : Cache)
  : list (result DataFrame) * Cache :=
  match disks with
  | [] => ([], c)
  | d :: disks' =>
      let (r, c1) := load_data d c in
      let (rs, c2) := load_many disks' c1 in
      (r :: rs, c2)
  end.

End Loader.

(** ** Sidebar widgets (APP.py, lines 21-23) *)

(** [s.unique()]: the distinct values of a column, in order of first
    appearance. *)
Fixpoint unique (s : list string) : list string :=
  match s with
  | [] => []
  | x :: s' => x :: filter (fun y => negb (String.eqb y x)) (unique s')
  end.

(** [s.min()] and [s.max()] of an integer column; NaN on the empty
    column. *)
Definition series_min (s : list Z) : pyfloat :=
  match s with
  | [] => NaN
  | x :: s' => Fin (inject_Z (fold_right Z.min x s'))
  end.

Definition series_max (s : list Z) : pyfloat :=
  match s with
  | [] => NaN
  | x :: s' => Fin (inject_Z (fold_right Z.max x s'))
  end.

(** The bounds handed to the age slider:
    [int(df['Age'].min()), int(df['Age'].max())]. *)
Definition slider_bounds (df : DataFrame) : result (Z * Z) :=
  lo <- Py.int (series_min (column Age df)) ;;
  hi <- Py.int (series_max (column Age df)) ;;
  Ok (lo, hi).

(** The default choices of the two multiselects: every value of the
    column. *)
Definition default_departments (df : DataFrame) : list string :=
  unique (column Department df).

Definition default_genders (df : DataFrame) : list string :=
  unique (column Gender df).

(** ** Counts behind the overview charts (APP.py, lines 37, 41, 46, 64) *)

(** Number of entries of a column equal to [v]. *)
Definition count (v : string) (s : list string) : Z :=
  Z.of_nat (List.length (filter (String.eqb v) s)).

(** Sort by decreasing count; equal counts keep their order. *)
Fixpoint insert_desc (e : string * Z) (l : list (string * Z))
  : list (string * Z) :=
  match l with
  | [] => [e]
  | e' :: l' => if snd e' <=? snd e then e :: l else e' :: insert_desc e l'
  end.

Definition sort_desc (l : list (string * Z)) : list (string * Z) :=
  fold_right insert_desc [] l.

(** [s.value_counts()]: one entry per distinct value with the number of its
    occurrences, most frequent first. *)
Definition value_counts (s : list string) : list (string * Z) :=
  sort_desc (map (fun v => (v, count v s)) (unique s)).


(** Labels in increasing order, as [groupby] and [unstack] list them. *)
Fixpoint insert_str (x : string) (l : list string) : list string :=
  match l with
  | [] => [x]
  | y :: l' => if String.leb x y then x :: l else y :: insert_str x l'
  end.

Definition sort_str (l : list string) : list string :=
  fold_right insert_str [] l.

Section GroupBy.

Variables key val : Row -> string.

(** The group labels of [view.groupby(key)]. *)
Definition group_keys (view : DataFrame) : list string :=
  sort_str (unique (column key view)).

Definition get_group (view : DataFrame) (k : string) : DataFrame :=
  filter (fun r => String.eqb (key r) k) view.

(** [view.groupby(key)[val].value_counts()]: per group, the value counts of
    the group's [val] column. *)
Definition groupby_value_counts (view : DataFrame)
  : list (string * list (string * Z)) :=
  map (fun k => (k, value_counts (column val (get_group view k))))
      (group_keys view).


End GroupBy.

(** Label lookup in a labelled list: the first entry with that label. *)
Definition lookup {V : Type} (c : string) (l : list (string * V)) : option V :=
  match find (fun e => String.eqb (fst e) c) l with
  | Some e => Some (snd e)
  | None => None
  end.

(** [.unstack()]: the inner labels become the columns (in increasing
    order); a row has a null cell where its group has no such label. *)
Definition unstack {V : Type} (s : list (string * list (string * V)))
  : list (string * list (string * option V)) :=
  let cols := sort_str (unique (flat_map (fun g => map fst (snd g)) s)) in
  map (fun g => (fst g, map (fun c => (c, lookup c (snd g))) cols)) s.

(** [.fillna(d)] *)
Definition fillna {V : Type} (d : V)
  (t : list (string * list (string * option V)))
  : list (string * list (string * V)) :=
  map (fun row =>
         (fst row,
          map (fun e => (fst e, match snd e with Some v => v | None => d end))
              (snd row)))
      t.

(** Chart 2:
    [groupby("Department")["Attrition"].value_counts().unstack().fillna(0)];
    chart 3:
    [groupby("Gender")["Attrition"].value_counts(normalize=True).unstack()].
    Both are read on views with at least one row. *)
Definition dept_attr (view : DataFrame) : list (string * list (string * Z)) :=
  fillna 0 (unstack (groupby_value_counts Department Attrition view)).


(** The cell of a table at a row label and a column label. *)
Definition cell {V : Type} (t : list (string * list (string * V)))
  (r c : string) : option V :=
  match lookup r t with
  | Some row => lookup c row
  | None => None
  end.

(** Number of rows of a view that satisfy [p]; sum of the non-null cells of
    a table row. *)
Definition count_rows (p : Row -> bool) (view : DataFrame) : Z :=
  Z.of_nat (List.length (filter p view)).


(** ** Filter engine: lemmas *)

Lemma existsb_eqb_In (x : string) (l : list string) :
  existsb (String.eqb x) l = true <-> In x l.
Proof.
  rewrite existsb_exists. split.
  - intros [y [Hy He]]. apply String.eqb_eq in He. now subst.
  - intros H. exists x. split; [assumption | apply String.eqb_refl].
Qed.

Lemma selectedb_spec ds gs lo hi r :
  selectedb ds gs lo hi r = true <-> selected ds gs lo hi r.
Proof.
  unfold selectedb, selected.
  rewrite !andb_true_iff, !existsb_eqb_In, !Z.leb_le. tauto.
Qed.

(** The three masks combined with [&] and used as an index are a [filter]
    by the row predicate. *)
Lemma filtered_df_filter df ds gs lo hi :
  filtered_df df ds gs (lo, hi) = filter (selectedb ds gs lo hi) df.
Proof.
  unfold filtered_df, column, Series.isin, Series.between. cbn [fst snd].
  induction df as [|r df IH]; [reflexivity|].
  cbn [map Series.and_ getitem_mask filter].
  unfold selectedb at 1.
  destruct (_ && _ && _); now rewrite IH.
Qed.

Lemma filter_sub {A} (p : A -> bool) (l : list A) : sub (filter p l) l.
Proof.
  induction l as [|x l IH]; cbn; [constructor|].
  destruct (p x); now constructor.
Qed.

Lemma filter_all_false {A} (p : A -> bool) (l : list A) :
  (forall x, In x l -> p x = false) -> filter p l = [].
Proof.
  induction l as [|x l IH]; cbn; intros H; [reflexivity|].
  rewrite (H x) by now left. apply IH. intros y Hy. apply H. now right.
Qed.

Lemma filter_idem {A} (p : A -> bool) (l : list A) :
  filter p (filter p l) = filter p l.
Proof.
  induction l as [|x l IH]; cbn; [reflexivity|].
  destruct (p x) eqn:E; cbn; rewrite ?E, IH; reflexivity.
Qed.

(** C1: the filtered view is exactly the dataset rows whose Department is
    selected, whose Gender is selected and whose Age lies in the inclusive
    range, in the dataset's row order; so every returned row satisfies the
    three predicates, every satisfying dataset row is returned, and the view
    has at most as many rows as the dataset. *)
Theorem filtered_df_exact df ds gs lo hi :
  filtered_df df ds gs (lo, hi) = filter (selectedb ds gs lo hi) df /\
  (forall r, In r (filtered_df df ds gs (lo, hi)) <->
             In r df /\ selected ds gs lo hi r) /\
  sub (filtered_df df ds gs (lo, hi)) df /\
  (List.length (filtered_df df ds gs (lo, hi)) <= List.length df)%nat.
Proof.
  rewrite filtered_df_filter.
  split; [reflexivity|]. split; [|split].
  - intros r. rewrite filter_In, selectedb_spec. tauto.
  - apply filter_sub.
  - apply filter_length_le.
Qed.

Lemma filtered_df_empty_selection_aux df gs age_range :
  filtered_df df [] gs age_range = [] /\
  forall ds, filtered_df df ds [] age_range = [].
Proof.
  destruct age_range as [lo hi].
  split; [|intros ds]; rewrite filtered_df_filter;
    apply filter_all_false; intros r _; unfold selectedb; cbn.
  - reflexivity.
  - now rewrite andb_false_r.
Qed.

(** C6: with no department selected, or with no gender selected, the view is
    empty whatever the dataset and the age range. *)
Theorem filtered_df_empty_selection df ds gs age_range :
  filtered_df df [] gs age_range = [] /\
  filtered_df df ds [] age_range = [].
Proof.
  destruct (filtered_df_empty_selection_aux df gs age_range) as [H1 H2].
  split; [exact H1 | apply H2].
Qed.

(** C7: an inverted age range gives an empty view; a selection none of whose
    departments (or none of whose genders) occurs in the dataset gives an
    empty view; and adding an unknown department or gender to a selection
    changes nothing.  The filter is a total function, so it cannot fail. *)
Theorem filtered_df_degrades df ds gs lo hi :
  (hi < lo -> filtered_df df ds gs (lo, hi) = []) /\
  ((forall d, In d ds -> ~ In d (column Department df)) ->
   filtered_df df ds gs (lo, hi) = []) /\
  ((forall g, In g gs -> ~ In g (column Gender df)) ->
   filtered_df df ds gs (lo, hi) = []) /\
  (forall u, ~ In u (column Department df) ->
   filtered_df df (u :: ds) gs (lo, hi) = filtered_df df ds gs (lo, hi)) /\
  (forall u, ~ In u (column Gender df) ->
   filtered_df df ds (u :: gs) (lo, hi) = filtered_df df ds gs (lo, hi)).
Proof.
  rewrite !filtered_df_filter.
  split; [|split; [|split; [|split]]].
  - intros Hinv. apply filter_all_false. intros r _.
    apply not_true_is_false. rewrite selectedb_spec. unfold selected. lia.
  - intros Hun. apply filter_all_false. intros r Hr.
    apply not_true_is_false. rewrite selectedb_spec. intros [Hd _].
    apply (Hun _ Hd). unfold column. now apply in_map.
  - intros Hun. apply filter_all_false. intros r Hr.
    apply not_true_is_false. rewrite selectedb_spec. intros [_ [Hg _]].
    apply (Hun _ Hg). unfold column. now apply in_map.
  - intros u Hu. rewrite !filtered_df_filter. apply filter_ext_in.
    intros r Hr. unfold selectedb. cbn [existsb].
    destruct (String.eqb_spec (Department r) u) as [E|E]; [|reflexivity].
    exfalso. apply Hu. rewrite <- E. unfold column. now apply in_map.
  - intros u Hu. rewrite !filtered_df_filter. apply filter_ext_in.
    intros r Hr. unfold selectedb. cbn [existsb].
    destruct (String.eqb_spec (Gender r) u) as [E|E]; [|reflexivity].
    exfalso. apply Hu. rewrite <- E. unfold column. now apply in_map.
Qed.

(** C8: filtering an already filtered view with the same selection returns
    the same rows. *)
Theorem filtered_df_idempotent df ds gs age_range :
  filtered_df (filtered_df df ds gs age_range) ds gs age_range =
  filtered_df df ds gs age_range.
Proof.
  destruct age_range as [lo hi]. rewrite !filtered_df_filter.
  apply filter_idem.
Qed.

(** ** KPI expressions: lemmas *)

Lemma rint_nearest (q : Q) : nearest_integer q (Py.rint q).
Proof.
  unfold nearest_integer, Py.rint. destruct q as [n d]. cbn [Qnum Qden].
  pose proof (Z.div_mod n (Zpos d) ltac:(lia)) as Hdm.
  pose proof (Z.mod_pos_bound n (Zpos d) ltac:(lia)) as Hr.
  set (fl := n / Zpos d) in *. set (r := n mod Zpos d) in *.
  apply Qabs_Qle_condition.
  assert (Hcase : forall z, - Zpos d <= 2 * (n - z * Zpos d) <= Zpos d ->
            (- (1 # 2) <= (n # d) - inject_Z z <= 1 # 2)%Q).
  { intros z Hz. unfold Qle, Qminus, Qplus, Qopp, inject_Z.
    cbn [Qnum Qden]. rewrite !Pos2Z.inj_mul. split; lia. }
  destruct (Z.compare_spec (2 * r) (Zpos d)) as [E|E|E].
  - destruct (Z.even fl); apply Hcase; nia.
  - apply Hcase; nia.
  - apply Hcase; nia.
Qed.

Lemma Qle_inject_num (a : Z) (n : Z) (d : positive) :
  (inject_Z a <= n # d)%Q <-> a * Zpos d <= n.
Proof. unfold Qle, inject_Z. cbn [Qnum Qden]. lia. Qed.

Lemma Qle_num_inject (b : Z) (n : Z) (d : positive) :
  (n # d <= inject_Z b)%Q <-> n <= b * Zpos d.
Proof. unfold Qle, inject_Z. cbn [Qnum Qden]. lia. Qed.

(** Rounding to an integer stays between two integers that enclose the
    value. *)
Lemma rint_between (a b : Z) (q : Q) :
  (inject_Z a <= q <= inject_Z b)%Q -> a <= Py.rint q <= b.
Proof.
  destruct q as [n d]. rewrite Qle_inject_num, Qle_num_inject.
  intros [Ha Hb]. unfold Py.rint. cbn [Qnum Qden].
  pose proof (Z.div_mod n (Zpos d) ltac:(lia)) as Hdm.
  pose proof (Z.mod_pos_bound n (Zpos d) ltac:(lia)) as Hr.
  set (fl := n / Zpos d) in *. set (r := n mod Zpos d) in *.
  assert (Hfa : a <= fl) by nia.
  assert (Hfb : fl <= b) by nia.
  assert (Hup : 0 < r -> fl + 1 <= b) by nia.
  destruct (Z.compare_spec (2 * r) (Zpos d)) as [E|E|E].
  - destruct (Z.even fl); lia.
  - lia.
  - lia.
Qed.

(** A value closer than one half to an integer rounds to it. *)
Lemma rint_unique (x : Q) (k : Z) :
  (Qabs (x - inject_Z k) < 1 # 2)%Q -> Py.rint x = k.
Proof.
  intros H. pose proof (rint_nearest x) as Hn. unfold nearest_integer in Hn.
  apply Qabs_Qlt_condition in H. apply Qabs_Qle_condition in Hn.
  assert (H1 : (inject_Z (Py.rint x) < inject_Z k + 1)%Q) by lra.
  assert (H2 : (inject_Z k < inject_Z (Py.rint x) + 1)%Q) by lra.
  change 1%Q with (inject_Z 1) in H1, H2.
  rewrite <- inject_Z_plus in H1, H2.
  rewrite <- Zlt_Qlt in H1, H2. lia.
Qed.

(** *** Binary64 rounding *)

Lemma pow2_pos (e : Z) : (0 < 2 ^ e)%Q.
Proof. apply Qpower_0_lt. reflexivity. Qed.

Lemma pow2_inject (k : Z) : 0 <= k -> (2 ^ k == inject_Z (2 ^ k))%Q.
Proof. intros H. now rewrite (Zpower_Qpower 2 k H). Qed.

Lemma pow2_plus (a b : Z) : (2 ^ (a + b) == 2 ^ a * 2 ^ b)%Q.
Proof. apply Qpower_plus. discriminate. Qed.

Lemma pow2_inv (e : Z) : (2 ^ (- e) * 2 ^ e == 1)%Q.
Proof.
  rewrite <- pow2_plus. replace (- e + e) with 0 by lia. reflexivity.
Qed.

Lemma ilog2_spec (q : Q) :
  (0 < q)%Q -> (2 ^ Py.ilog2 q <= q /\ q < 2 ^ (Py.ilog2 q + 1))%Q.
Proof.
  intros Hq. destruct q as [n d].
  assert (Hn : 0 < n) by (unfold Qlt in Hq; cbn in Hq; lia).
  unfold Py.ilog2. cbn [Qnum Qden].
  set (ln := Z.log2 n). set (ld := Z.log2 (Zpos d)).
  assert (Hln0 : 0 <= ln) by apply Z.log2_nonneg.
  assert (Hld0 : 0 <= ld) by apply Z.log2_nonneg.
  destruct (Z.log2_spec n Hn) as [Hn1 Hn2]. fold ln in Hn1, Hn2.
  destruct (Z.log2_spec (Zpos d) ltac:(lia)) as [Hd1 Hd2].
  fold ld in Hd1, Hd2.
  assert (Hup : (n # d < 2 ^ (ln - ld + 1))%Q).
  { replace (ln - ld + 1) with (Z.succ ln - ld) by lia.
    rewrite Qpower_minus by discriminate.
    rewrite (pow2_inject (Z.succ ln)), (pow2_inject ld) by lia.
    apply Qlt_shift_div_l.
    - rewrite <- pow2_inject by lia. apply pow2_pos.
    - unfold Qlt, Qmult, inject_Z. cbn [Qnum Qden].
      assert (0 < 2 ^ ld) by lia. nia. }
  assert (Hlow : (2 ^ (ln - ld - 1) <= n # d)%Q).
  { replace (ln - ld - 1) with (ln - Z.succ ld) by lia.
    rewrite Qpower_minus by discriminate.
    rewrite (pow2_inject ln), (pow2_inject (Z.succ ld)) by lia.
    apply Qle_shift_div_r.
    - rewrite <- pow2_inject by lia. apply pow2_pos.
    - unfold Qle, Qmult, inject_Z. cbn [Qnum Qden].
      assert (0 < 2 ^ ln) by lia. nia. }
  destruct (Qle_bool (2 ^ (ln - ld)) (n # d)) eqn:Hb.
  - apply Qle_bool_iff in Hb. split; assumption.
  - split; [exact Hlow|].
    replace (ln - ld - 1 + 1) with (ln - ld) by lia.
    apply Qnot_le_lt. intros H. apply Qle_bool_iff in H. congruence.
Qed.

Lemma Qnum_zero_iff (q : Q) : Qnum q = 0 <-> (q == 0)%Q.
Proof. unfold Qeq. cbn. lia. Qed.

Lemma fl64_zero (x : Q) : (x == 0)%Q -> Py.fl64 x = 0%Q.
Proof.
  intros H. unfold Py.fl64.
  assert (E : Qred x = Qred 0) by now apply Qred_complete.
  rewrite E. reflexivity.
Qed.

(** A non-zero value is rounded at the spacing [2^e] of its binade. *)
Lemma fl64_decomp (x : Q) :
  ~ (x == 0)%Q ->
  exists e : Z,
    (Py.fl64 x == inject_Z (Py.rint (Qred x * 2 ^ (- e))) * 2 ^ e)%Q /\
    (2 ^ (e + 52) <= Qabs x)%Q /\ (Qabs x < 2 ^ (e + 53))%Q.
Proof.
  intros Hx. unfold Py.fl64.
  assert (Hq : ~ (Qred x == 0)%Q) by now rewrite Qred_correct.
  destruct (Z.eqb_spec (Qnum (Qred x)) 0) as [E|E];
    [now apply Qnum_zero_iff in E|].
  exists (Py.ilog2 (Qabs (Qred x)) - 52).
  assert (Hpos : (0 < Qabs (Qred x))%Q).
  { apply Qabs_case; intros H.
    - apply Qle_lteq in H. destruct H as [H|H]; [exact H|].
      exfalso. apply Hq. now symmetry.
    - apply Qle_lteq in H. destruct H as [H|H]; [lra|]. now exfalso. }
  destruct (ilog2_spec _ Hpos) as [H1 H2].
  set (EE := Py.ilog2 (Qabs (Qred x))) in *.
  assert (Ha : (Qabs (Qred x) == Qabs x)%Q) by now rewrite Qred_correct.
  rewrite Ha in H1, H2.
  split; [apply Qred_correct|]. split.
  - now replace (EE - 52 + 52) with EE by lia.
  - now replace (EE - 52 + 53) with (EE + 1) by lia.
Qed.

(** Relative error of one rounding. *)
Lemma fl64_error (x : Q) :
  (Qabs (Py.fl64 x - x) <= Qabs x * ulp_half)%Q.
Proof.
  destruct (Qeq_dec x 0) as [Hx|Hx].
  - rewrite (fl64_zero x Hx), Hx. cbn. unfold Qle. cbn. lia.
  - destruct (fl64_decomp x Hx) as [e [Hfl [Hlo Hhi]]].
    set (r := Py.rint (Qred x * 2 ^ (- e))) in *.
    pose proof (rint_nearest (Qred x * 2 ^ (- e))) as Hn.
    fold r in Hn. unfold nearest_integer in Hn.
    rewrite Qred_correct in Hn.
    pose proof (pow2_pos e) as HP. pose proof (pow2_inv e) as Hinv.
    rewrite pow2_plus in Hlo.
    assert (E52 : (2 ^ 52 == inject_Z (2 ^ 52))%Q) by (apply pow2_inject; lia).
    rewrite E52 in Hlo.
    set (P := (2 ^ e)%Q) in *. set (Pi := (2 ^ (- e))%Q) in *.
    assert (Hd : (Py.fl64 x - x == (inject_Z r - x * Pi) * P)%Q).
    { rewrite Hfl. setoid_replace x with (x * (Pi * P))%Q at 1
        by (rewrite Hinv; ring). ring. }
    rewrite Hd, Qabs_Qmult, (Qabs_pos P) by lra.
    assert (Hn' : (Qabs (inject_Z r - x * Pi) <= 1 # 2)%Q).
    { rewrite <- Qabs_opp.
      setoid_replace (- (inject_Z r - x * Pi))%Q with (x * Pi - inject_Z r)%Q
        by ring. exact Hn. }
    assert (Hm : (Qabs (inject_Z r - x * Pi) * P <= (1 # 2) * P)%Q)
      by (apply Qmult_le_compat_r; lra).
    unfold ulp_half.
    change (inject_Z (2 ^ 52)) with (4503599627370496 # 1)%Q in Hlo.
    lra.
Qed.

(** Rounding keeps a value between two integers of magnitude below 2^53. *)
Lemma fl64_between (a b : Z) (x : Q) :
  - 2 ^ 53 < a -> b < 2 ^ 53 ->
  (inject_Z a <= x <= inject_Z b)%Q ->
  (inject_Z a <= Py.fl64 x <= inject_Z b)%Q.
Proof.
  intros Ha Hb [Hax Hxb].
  destruct (Qeq_dec x 0) as [Hx|Hx].
  - rewrite (fl64_zero x Hx). rewrite Hx in Hax, Hxb. now split.
  - destruct (fl64_decomp x Hx) as [e [Hfl [Hlo Hhi]]].
    set (r := Py.rint (Qred x * 2 ^ (- e))) in *.
    assert (Ha' : (- (9007199254740992 # 1) < inject_Z a)%Q)
      by (unfold Qlt; cbn; lia).
    assert (Hb' : (inject_Z b < 9007199254740992 # 1)%Q)
      by (unfold Qlt; cbn; lia).
    assert (Habs : (Qabs x < 9007199254740992 # 1)%Q)
      by (apply Qabs_Qlt_condition; split; lra).
    assert (He : e <= 0).
    { destruct (Z_le_gt_dec e 0) as [H|H]; [exact H|]. exfalso.
      assert (H53 : (2 ^ 53 <= 2 ^ (e + 52))%Q)
        by (apply Qpower_le_compat_l; [lia | discriminate]).
      change (2 ^ 53)%Q with (9007199254740992 # 1)%Q in H53. lra. }
    pose proof (pow2_pos e) as HP. pose proof (pow2_inv e) as Hinv.
    rewrite (pow2_inject (- e)) in Hinv by lia.
    assert (HK : 0 < 2 ^ (- e)) by (apply Z.pow_pos_nonneg; lia).
    assert (Hr : a * 2 ^ (- e) <= r <= b * 2 ^ (- e)).
    { apply rint_between. rewrite Qred_correct, (pow2_inject (- e)) by lia.
      rewrite !inject_Z_mult.
      assert (0 < inject_Z (2 ^ (- e)))%Q by (unfold Qlt; cbn; lia).
      split; apply Qmult_le_compat_r; lra. }
    destruct Hr as [Hr1 Hr2].
    rewrite Zle_Qle in Hr1, Hr2. rewrite inject_Z_mult in Hr1, Hr2.
    rewrite Hfl. fold r.
    set (P := (2 ^ e)%Q) in *. set (K := inject_Z (2 ^ (- e))) in *.
    assert (HKq : (0 < K)%Q) by (unfold K, Qlt; cbn; lia).
    split.
    + setoid_replace (inject_Z a) with (inject_Z a * K * P)%Q
        by (rewrite <- Qmult_assoc, Hinv; ring).
      apply Qmult_le_compat_r; lra.
    + setoid_replace (inject_Z b) with (inject_Z b * K * P)%Q
        by (rewrite <- Qmult_assoc, Hinv; ring).
      apply Qmult_le_compat_r; lra.
Qed.

Lemma Qred_inject (z : Z) : Qred (inject_Z z) = inject_Z z.
Proof.
  unfold Qred, inject_Z.
  pose proof (Z.ggcd_gcd z 1) as Hg.
  pose proof (Z.ggcd_correct_divisors z 1) as Hd.
  destruct (Z.ggcd z 1) as [g [q1 q2]]. cbn [fst snd] in *.
  rewrite Z.gcd_1_r in Hg. subst g. destruct Hd as [H1 H2].
  assert (E1 : q1 = z) by lia. assert (E2 : q2 = 1) by lia.
  rewrite E1, E2. reflexivity.
Qed.

Lemma fl64_reduced (x : Q) : Qred (Py.fl64 x) = Py.fl64 x.
Proof.
  unfold Py.fl64. destruct (Qnum (Qred x) =? 0); [reflexivity|].
  apply Qred_complete, Qred_correct.
Qed.

(** An integer of magnitude below 2^53 is a binary64 number. *)
Lemma fl64_exact (x : Q) (z : Z) :
  - 2 ^ 53 < z < 2 ^ 53 -> (x == inject_Z z)%Q -> Py.fl64 x = inject_Z z.
Proof.
  intros [H1 H2] Hx.
  assert (H : (inject_Z z <= Py.fl64 x <= inject_Z z)%Q).
  { apply fl64_between; try assumption. rewrite Hx. split; apply Qle_refl. }
  assert (E : (Py.fl64 x == inject_Z z)%Q) by (apply Qle_antisym; apply H).
  apply Qred_complete in E. now rewrite fl64_reduced, Qred_inject in E.
Qed.

Lemma fl64_compat (x y : Q) : (x == y)%Q -> Py.fl64 x = Py.fl64 y.
Proof.
  intros H. unfold Py.fl64. now rewrite (Qred_complete x y H).
Qed.

Lemma mean_nonempty (s : list Z) :
  s <> [] -> mean s = Fin (Py.fl64 (sum s # Pos.of_nat (List.length s))).
Proof.
  intros Hne. unfold mean.
  destruct s as [|x s]; [contradiction|].
  cbn [List.length]. now rewrite Pos.of_nat_succ.
Qed.

Lemma map_nonempty {A B} (f : A -> B) (l : list A) : l <> [] -> map f l <> [].
Proof. now destruct l. Qed.

Lemma sum_eq_yes (view : DataFrame) :
  sum (map Z.b2z (Series.eq_ (column Attrition view) "Yes")) =
  Z.of_nat (count_yes view).
Proof.
  unfold count_yes, Series.eq_, column.
  induction view as [|r view IH]; [reflexivity|].
  cbn [map sum fold_right filter]. fold (sum (map Z.b2z
    (map (fun x => String.eqb x "Yes") (map Attrition view)))).
  rewrite IH. destruct (String.eqb (Attrition r) "Yes"); cbn [Z.b2z List.length]; lia.
Qed.

Lemma quot_floor (a n : Z) :
  0 <= a -> 0 < n -> Z.quot a n * n <= a < (Z.quot a n + 1) * n.
Proof.
  intros Ha Hn. rewrite Z.quot_div_nonneg by lia.
  pose proof (Z.div_mod a n ltac:(lia)).
  pose proof (Z.mod_pos_bound a n Hn). nia.
Qed.

Lemma pos_of_nat_length {A} (l : list A) :
  l <> [] -> Zpos (Pos.of_nat (List.length l)) = Z.of_nat (List.length l).
Proof.
  destruct l; [contradiction|]. intros _.
  cbn [List.length]. rewrite <- Pos.of_nat_succ. lia.
Qed.

Lemma count_yes_le (view : DataFrame) :
  (count_yes view <= List.length view)%nat.
Proof. apply filter_length_le. Qed.

(** If a value is within [B] of the fraction [M/D] and [B] is below half
    the spacing [1/D] of the fractions with that denominator, the integer
    it rounds to is a nearest integer of the fraction. *)
Lemma near_after_error (M : Z) (D : positive) (x B : Q) :
  (Qabs (x - (M # D)) <= B)%Q -> (B < 1 # (2 * D))%Q ->
  nearest_integer (M # D) (Py.rint x).
Proof.
  intros Hx HB. pose proof (rint_nearest x) as Hn.
  unfold nearest_integer in *. set (k := Py.rint x) in *.
  apply Qabs_Qle_condition in Hx. apply Qabs_Qle_condition in Hn.
  assert (H1 : ((M # D) - inject_Z k < (1 # 2) + (1 # (2 * D)))%Q) by lra.
  assert (H2 : (- ((1 # 2) + (1 # (2 * D))) < (M # D) - inject_Z k)%Q) by lra.
  apply Qabs_Qle_condition.
  unfold Qlt, Qle, Qminus, Qplus, Qopp, inject_Z in *.
  cbn [Qnum Qden] in *. rewrite ?Pos2Z.inj_mul in *.
  split; nia.
Qed.

(** The three roundings behind the Attrition Rate: the share [c/n], times
    100, times 100 again inside [round]. *)
Lemma attrition_chain (c : Z) (n : positive) :
  0 <= c <= Zpos n ->
  let x1 := Py.fl64 (c # n) in
  let x2 := Py.fl64 (x1 * inject_Z 100) in
  let x3 := Py.fl64 (x2 * inject_Z 100) in
  (0 <= x1 <= 1)%Q /\ (0 <= x3 <= inject_Z 10000)%Q /\
  (Qabs (x3 - ((c * 10000) # n)) <= inject_Z 30000 * ulp_half)%Q.
Proof.
  intros Hc x1 x2 x3.
  assert (Hp : (inject_Z 0 <= c # n <= inject_Z 1)%Q).
  { rewrite Qle_inject_num, Qle_num_inject. lia. }
  assert (H1 : (inject_Z 0 <= x1 <= inject_Z 1)%Q)
    by (apply fl64_between; [lia | lia | exact Hp]).
  assert (H2 : (inject_Z 0 <= x2 <= inject_Z 100)%Q).
  { apply fl64_between; [lia | lia |]. unfold inject_Z in *. lra. }
  assert (H3 : (inject_Z 0 <= x3 <= inject_Z 10000)%Q).
  { apply fl64_between; [lia | lia |]. unfold inject_Z in *. lra. }
  pose proof (fl64_error (c # n)) as E1. fold x1 in E1.
  pose proof (fl64_error (x1 * inject_Z 100)) as E2. fold x2 in E2.
  pose proof (fl64_error (x2 * inject_Z 100)) as E3. fold x3 in E3.
  rewrite (Qabs_pos (c # n)) in E1 by apply Hp.
  rewrite (Qabs_pos (x1 * inject_Z 100)) in E2
    by (unfold inject_Z in *; lra).
  rewrite (Qabs_pos (x2 * inject_Z 100)) in E3
    by (unfold inject_Z in *; lra).
  apply Qabs_Qle_condition in E1, E2, E3.
  assert (Hq : ((c * 10000) # n == (c # n) * inject_Z 10000)%Q)
    by (unfold Qeq, Qmult, inject_Z; cbn [Qnum Qden]; lia).
  split; [unfold inject_Z in H1; exact H1|]. split; [exact H3|].
  rewrite Hq. apply Qabs_Qle_condition.
  unfold ulp_half, inject_Z in *. split; lra.
Qed.

Lemma attrition_rate_value (view : DataFrame) :
  view <> [] ->
  attrition_rate view =
  Fin (Py.fl64
         (Py.rint
            (Py.fl64
               (Py.fl64
                  (Py.fl64 (Z.of_nat (count_yes view)
                            # Pos.of_nat (List.length view))
                   * inject_Z 100)
                * inject_Z 100))
          # 100)).
Proof.
  intros Hne. unfold attrition_rate, mean_bool.
  rewrite mean_nonempty
    by (unfold Series.eq_, column; now repeat apply map_nonempty).
  rewrite sum_eq_yes. unfold Series.eq_, column. rewrite !length_map.
  reflexivity.
Qed.

(** The text of a rounded percentage: [str] of the binary64 number nearest
    to [k/100] reads back [k]. *)
Lemma attrition_rate_label_value (view : DataFrame) (k : Z) :
  0 <= k <= 10000 ->
  attrition_rate view = Fin (Py.fl64 (k # 100)) ->
  attrition_rate_label view = (Py.str_hundredths k ++ "%")%string.
Proof.
  intros Hk H. unfold attrition_rate_label. rewrite H. unfold Py.str.
  f_equal. f_equal. apply rint_unique.
  pose proof (fl64_error (k # 100)) as E.
  assert (Hq : (inject_Z k == (k # 100) * inject_Z 100)%Q)
    by (unfold Qeq, Qmult, inject_Z; cbn [Qnum Qden]; lia).
  assert (Hb : (inject_Z 0 <= k # 100 <= inject_Z 100)%Q)
    by (rewrite Qle_inject_num, Qle_num_inject; lia).
  rewrite (Qabs_pos (k # 100)) in E by apply Hb.
  apply Qabs_Qle_condition in E. rewrite Hq.
  apply Qabs_Qlt_condition. unfold ulp_half, inject_Z in *. split; lra.
Qed.

Lemma attrition_rate_hundredths (view : DataFrame) :
  view <> [] ->
  exists k : Z,
    attrition_rate view = Fin (Py.fl64 (k # 100)) /\ 0 <= k <= 100 * 100 /\
    (Qabs (Py.fl64
             (Py.fl64
                (Py.fl64 (Z.of_nat (count_yes view)
                          # Pos.of_nat (List.length view))
                 * inject_Z 100)
              * inject_Z 100)
           - ((Z.of_nat (count_yes view) * 10000)
              # Pos.of_nat (List.length view)))
     <= inject_Z 30000 * ulp_half)%Q /\
    k = Py.rint
          (Py.fl64
             (Py.fl64
                (Py.fl64 (Z.of_nat (count_yes view)
                          # Pos.of_nat (List.length view))
                 * inject_Z 100)
              * inject_Z 100)).
Proof.
  intros Hne. eexists. split; [now apply attrition_rate_value|].
  pose proof (count_yes_le view) as Hc.
  pose proof (pos_of_nat_length view Hne) as Hp.
  destruct (attrition_chain (Z.of_nat (count_yes view))
              (Pos.of_nat (List.length view)) ltac:(lia)) as [_ [Hb He]].
  split; [|split; [exact He | reflexivity]].
  now apply rint_between.
Qed.

(** ** KPI expressions: theorems *)

(** C2: on the empty view (for instance with every department deselected)
    the Average Age and Attrition Rate expressions give NaN, but the Average
    Income expression raises [ValueError], so the KPI block raises. *)
Theorem kpi_overview_empty_raises df gs age_range :
  filtered_df df [] gs age_range = [] /\
  average_age [] = NaN /\
  attrition_rate_label [] = "nan%" /\
  average_income [] = Raise ValueError /\
  kpi_overview (filtered_df df [] gs age_range) = Raise ValueError.
Proof.
  destruct (filtered_df_empty_selection_aux df gs age_range) as [-> _].
  repeat split.
Qed.

(** C3: on the empty view the Attrition Rate expression gives NaN (shown as
    "nan%") without raising; on a non-empty view (of at most 2^32 rows) it
    is the binary64 number nearest to a number of hundredths [k/100], where
    [k] is a nearest integer of 100 times the percentage of rows with
    Attrition "Yes", and the label is that decimal followed by "%".  With
    23 leavers among 160 rows the label is "14.37%" (binary64 arithmetic
    falls just below the tie 14.375), and with 1 among 32 it is "3.12%"
    (an exact tie, rounded to the even hundredth). *)
Theorem attrition_rate_spec :
  (attrition_rate [] = NaN /\ attrition_rate_label [] = "nan%") /\
  (forall view, view <> [] ->
    Z.of_nat (List.length view) <= 2 ^ 32 ->
    let pct := ((Z.of_nat (count_yes view) # Pos.of_nat (List.length view))
                * inject_Z 100)%Q in
    exists k : Z,
      attrition_rate view = Fin (Py.fl64 (k # 100)) /\
      nearest_integer (pct * inject_Z 100) k /\
      attrition_rate_label view = (Py.str_hundredths k ++ "%")%string) /\
  attrition_rate_label
    (repeat (mkRow "Sales" "Male" 30 "Yes" 1000) 23 ++
     repeat (mkRow "Sales" "Male" 30 "No" 1000) 137)%list = "14.37%" /\
  attrition_rate_label
    (repeat (mkRow "Sales" "Male" 30 "Yes" 1000) 1 ++
     repeat (mkRow "Sales" "Male" 30 "No" 1000) 31)%list = "3.12%".
Proof.
  split; [split; reflexivity|]. split; [|split; vm_compute; reflexivity].
  intros view Hne Hlen pct.
  destruct (attrition_rate_hundredths view Hne) as [k [Hv [Hk [He Hkd]]]].
  exists k. split; [exact Hv|]. split.
  - assert (Hq : (pct * inject_Z 100 ==
                  (Z.of_nat (count_yes view) * 10000)
                  # Pos.of_nat (List.length view))%Q)
      by (unfold pct, Qeq, Qmult, inject_Z; cbn [Qnum Qden]; lia).
    unfold nearest_integer. rewrite Hq. rewrite Hkd.
    apply (near_after_error _ _ _ _ He).
    pose proof (pos_of_nat_length view Hne) as Hp.
    unfold Qlt, Qmult, ulp_half, inject_Z. cbn [Qnum Qden].
    rewrite Pos2Z.inj_mul, Hp. lia.
  - apply attrition_rate_label_value; [lia | exact Hv].
Qed.

(** Witness for C3 on a view of three rows, one of which left. *)
Lemma attrition_rate_spec_witness :
  let view := [mkRow "Sales" "Male" 20 "Yes" 1000;
               mkRow "Sales" "Female" 35 "No" 1001;
               mkRow "HR" "Male" 41 "No" 1001] in
  view <> [] /\ Z.of_nat (List.length view) <= 2 ^ 32 /\
  exists k : Z,
    attrition_rate view = Fin (Py.fl64 (k # 100)) /\
    nearest_integer (((1 # 3) * inject_Z 100) * inject_Z 100) k /\
    attrition_rate_label view = (Py.str_hundredths k ++ "%")%string.
Proof.
  intros view.
  assert (Hne : view <> []) by discriminate.
  assert (Hlen : Z.of_nat (List.length view) <= 2 ^ 32) by (cbn; lia).
  split; [exact Hne|]. split; [exact Hlen|].
  exact (proj1 (proj2 attrition_rate_spec) view Hne Hlen).
Defined.

Lemma sum_abs_ge (s : list Z) : Z.abs (sum s) <= sum_abs s.
Proof.
  unfold sum_abs, sum. induction s as [|x s IH]; cbn [map fold_right]; lia.
Qed.

(** The two roundings behind the Average Age: the mean [S/n], and its
    product by 10 inside [round]. *)
Lemma round1_chain (S : Z) (n : positive) :
  let x1 := Py.fl64 (S # n) in
  let x2 := Py.fl64 (x1 * inject_Z 10) in
  (Qabs (x2 - ((S * 10) # n))
   <= inject_Z 30 * Qabs (S # n) * ulp_half)%Q.
Proof.
  intros x1 x2.
  pose proof (fl64_error (S # n)) as E1. fold x1 in E1.
  pose proof (fl64_error (x1 * inject_Z 10)) as E2. fold x2 in E2.
  pose proof (Qabs_nonneg (S # n)) as Ha.
  set (a := Qabs (S # n)) in *.
  assert (Hpa : (- a <= S # n <= a)%Q)
    by (apply Qabs_Qle_condition; apply Qle_refl).
  apply Qabs_Qle_condition in E1.
  assert (Hx1 : (Qabs x1 <= inject_Z 2 * a)%Q).
  { apply Qabs_Qle_condition. unfold ulp_half, inject_Z in *. split; lra. }
  rewrite Qabs_Qmult, (Qabs_pos (inject_Z 10)) in E2 by discriminate.
  apply Qabs_Qle_condition in E2.
  assert (Hq : ((S * 10) # n == (S # n) * inject_Z 10)%Q)
    by (unfold Qeq, Qmult, inject_Z; cbn [Qnum Qden]; lia).
  rewrite Hq. apply Qabs_Qle_condition.
  unfold ulp_half, inject_Z in *. split; lra.
Qed.

Lemma average_age_value (view : DataFrame) :
  view <> [] ->
  average_age view =
  Fin (Py.fl64
         (Py.rint
            (Py.fl64
               (Py.fl64 (sum (column Age view)
                         # Pos.of_nat (List.length view))
                * inject_Z 10))
          # 10)).
Proof.
  intros Hne. unfold average_age.
  rewrite mean_nonempty by (unfold column; now apply map_nonempty).
  unfold column at 2. rewrite length_map. reflexivity.
Qed.

Lemma trunc_pos (q : Q) (m : Z) :
  0 <= m -> (inject_Z m <= q)%Q -> (q < inject_Z (m + 1))%Q ->
  Z.quot (Qnum q) (Zpos (Qden q)) = m.
Proof.
  destruct q as [a b]. unfold Qle, Qlt, inject_Z. cbn [Qnum Qden].
  intros Hm H1 H2.
  pose proof (Z.quot_rem' a (Zpos b)) as Hqr.
  pose proof (Z.rem_bound_pos a (Zpos b) ltac:(nia) ltac:(lia)). nia.
Qed.

Lemma trunc_neg (q : Q) (m : Z) :
  m <= 0 -> (inject_Z (m - 1) < q)%Q -> (q <= inject_Z m)%Q ->
  Z.quot (Qnum q) (Zpos (Qden q)) = m.
Proof.
  destruct q as [a b]. unfold Qle, Qlt, inject_Z. cbn [Qnum Qden].
  intros Hm H1 H2.
  pose proof (Z.quot_rem' a (Zpos b)) as Hqr.
  pose proof (Z.rem_bound_pos (- a) (Zpos b) ltac:(nia) ltac:(lia)) as Hrb.
  rewrite Z.rem_opp_l' in Hrb. nia.
Qed.

(** [int] of the rounded quotient of two integers is the truncated
    quotient, as long as the dividend is below 2^53 in magnitude: rounding
    cannot carry the quotient across an integer. *)
Lemma int_fl64_quot (S : Z) (n : positive) :
  - 2 ^ 53 < S < 2 ^ 53 ->
  Py.int (Fin (Py.fl64 (S # n))) = Ok (Z.quot S (Zpos n)).
Proof.
  intros HS. cbn [Py.int]. f_equal.
  pose proof (Z.quot_rem' S (Zpos n)) as Hqr.
  set (m := Z.quot S (Zpos n)) in *. set (r := Z.rem S (Zpos n)) in *.
  pose proof (fl64_error (S # n)) as E.
  destruct (Z.eq_dec r 0) as [Hr|Hr].
  - assert (Hm : - 2 ^ 53 < m < 2 ^ 53) by nia.
    rewrite (fl64_exact (S # n) m Hm).
    + cbn [inject_Z Qnum Qden]. apply Z.quot_1_r.
    + unfold Qeq, inject_Z. cbn [Qnum Qden]. lia.
  - destruct (Z_le_gt_dec 0 S) as [Hs|Hs].
    + pose proof (Z.rem_bound_pos S (Zpos n) Hs ltac:(lia)) as Hrb.
      fold r in Hrb.
      assert (Hm0 : 0 <= m) by nia.
      assert (Hb : (inject_Z m <= Py.fl64 (S # n) <= inject_Z (m + 1))%Q).
      { apply fl64_between; [nia | nia |].
        rewrite Qle_inject_num, Qle_num_inject. nia. }
      apply trunc_pos; [exact Hm0 | apply Hb |].
      rewrite (Qabs_pos (S # n)) in E
        by (unfold Qle; cbn [Qnum Qden]; lia).
      apply Qabs_Qle_condition in E.
      assert (Hgap : (1 # n <= inject_Z (m + 1) - (S # n))%Q).
      { unfold Qle, Qminus, Qplus, Qopp, inject_Z. cbn [Qnum Qden].
        rewrite Pos2Z.inj_mul. nia. }
      assert (Herr : ((S # n) * ulp_half < 1 # n)%Q).
      { unfold Qlt, Qmult, ulp_half. cbn [Qnum Qden].
        rewrite Pos2Z.inj_mul. nia. }
      lra.
    + pose proof (Z.rem_bound_pos (- S) (Zpos n) ltac:(lia) ltac:(lia))
        as Hrb.
      rewrite Z.rem_opp_l' in Hrb. fold r in Hrb.
      assert (Hm0 : m <= 0) by nia.
      assert (Hb : (inject_Z (m - 1) <= Py.fl64 (S # n) <= inject_Z m)%Q).
      { apply fl64_between; [nia | nia |].
        rewrite Qle_inject_num, Qle_num_inject. nia. }
      apply trunc_neg; [exact Hm0 | | apply Hb].
      rewrite (Qabs_neg (S # n)) in E
        by (unfold Qle; cbn [Qnum Qden]; lia).
      apply Qabs_Qle_condition in E.
      assert (Hgap : (1 # n <= (S # n) - inject_Z (m - 1))%Q).
      { unfold Qle, Qminus, Qplus, Qopp, inject_Z. cbn [Qnum Qden].
        rewrite Pos2Z.inj_mul. nia. }
      assert (Herr : (- (S # n) * ulp_half < 1 # n)%Q).
      { unfold Qlt, Qmult, Qopp, ulp_half. cbn [Qnum Qden].
        rewrite Pos2Z.inj_mul. nia. }
      lra.
Qed.

Lemma average_income_value (view : DataFrame) :
  view <> [] ->
  average_income view =
  Py.int (Fin (Py.fl64 (sum (column MonthlyIncome view)
                        # Pos.of_nat (List.length view)))).
Proof.
  intros Hne. unfold average_income.
  rewrite mean_nonempty by (unfold column; now apply map_nonempty).
  unfold column at 2. now rewrite length_map.
Qed.

(** C4 (as amended): on a non-empty view whose ages total at most 2^47 in
    magnitude and whose incomes total less than 2^53, the Average Age
    metric is the binary64 number nearest to a number of tenths [t/10],
    where [t] is a nearest integer of 10 times the mean age, and the
    Average Income metric is the mean monthly income truncated toward zero,
    which for a non-negative total is its floor.  Ages 30, 30, 30, 31 (mean
    30.25, a tie) show 30.2. *)
Theorem kpi_means_spec (view : DataFrame) :
  view <> [] ->
  sum_abs (column Age view) <= 2 ^ 47 ->
  sum_abs (column MonthlyIncome view) < 2 ^ 53 ->
  let n := Z.of_nat (List.length view) in
  let ages := sum (column Age view) in
  let incomes := sum (column MonthlyIncome view) in
  (exists t i : Z,
    average_age view = Fin (Py.fl64 (t # 10)) /\
    nearest_integer ((ages # Pos.of_nat (List.length view)) * inject_Z 10) t /\
    average_income view = Ok i /\
    i = Z.quot incomes n /\
    (0 <= incomes -> i * n <= incomes < (i + 1) * n)) /\
  average_age [mkRow "Sales" "Male" 30 "No" 1000;
               mkRow "Sales" "Male" 30 "No" 1000;
               mkRow "Sales" "Male" 30 "No" 1000;
               mkRow "Sales" "Male" 31 "No" 1000]
  = Fin (Py.fl64 (302 # 10)).
Proof.
  intros Hne Hage Hinc n ages incomes.
  split; [|vm_compute; reflexivity].
  assert (Hn : 0 < n) by (destruct view; [contradiction | cbn in *; lia]).
  pose proof (pos_of_nat_length view Hne) as Hpos. fold n in Hpos.
  pose proof (sum_abs_ge (column Age view)) as HA. fold ages in HA.
  pose proof (sum_abs_ge (column MonthlyIncome view)) as HI.
  fold incomes in HI.
  eexists. exists (Z.quot incomes n).
  split; [now apply average_age_value|]. split; [|split; [|split]].
  - fold ages.
    assert (Hq : ((ages # Pos.of_nat (List.length view)) * inject_Z 10 ==
                  (ages * 10) # Pos.of_nat (List.length view))%Q)
      by (unfold Qeq, Qmult, inject_Z; cbn [Qnum Qden]; lia).
    unfold nearest_integer. rewrite Hq.
    apply (near_after_error _ _ _ _ (round1_chain ages _)).
    unfold Qlt, Qmult, ulp_half, inject_Z, Qabs. cbn [Qnum Qden].
    rewrite !Pos2Z.inj_mul, Hpos. nia.
  - rewrite average_income_value by assumption. fold incomes.
    rewrite int_fl64_quot by lia. now rewrite Hpos.
  - reflexivity.
  - intros H. now apply quot_floor.
Qed.

Lemma kpi_means_spec_witness :
  let view := [mkRow "Sales" "Male" 20 "Yes" 1000;
               mkRow "Sales" "Female" 35 "No" 1001;
               mkRow "HR" "Male" 41 "No" 1001] in
  view <> [] /\
  sum_abs (column Age view) <= 2 ^ 47 /\
  sum_abs (column MonthlyIncome view) < 2 ^ 53 /\
  exists t i : Z,
    average_age view = Fin (Py.fl64 (t # 10)) /\
    nearest_integer ((96 # 3) * inject_Z 10) t /\
    average_income view = Ok i /\
    i = Z.quot 3002 3 /\
    (0 <= 3002 -> i * 3 <= 3002 < (i + 1) * 3).
Proof.
  intros view.
  assert (Hne : view <> []) by discriminate.
  assert (H1 : sum_abs (column Age view) <= 2 ^ 47) by (vm_compute; discriminate).
  assert (H2 : sum_abs (column MonthlyIncome view) < 2 ^ 53)
    by (vm_compute; reflexivity).
  split; [exact Hne|]. split; [exact H1|]. split; [exact H2|].
  exact (proj1 (kpi_means_spec view Hne H1 H2)).
Defined.

(** C4 as stated fails: with monthly incomes 1000, 1001 and 1001 the mean is
    3002/3 (about 1000.67) and the Average Income metric is 1000, which is
    farther than one half from the mean, so it is not the mean rounded to the
    nearest integer under any tie rule. *)
Lemma average_income_not_nearest :
  let view := [mkRow "Sales" "Male" 20 "Yes" 1000;
               mkRow "Sales" "Female" 35 "No" 1001;
               mkRow "HR" "Male" 41 "No" 1001] in
  view <> [] /\
  sum (column MonthlyIncome view) = 3002 /\ List.length view = 3%nat /\
  average_income view = Ok 1000 /\
  ~ nearest_integer (3002 # 3) 1000 /\
  nearest_integer (3002 # 3) 1001.
Proof.
  cbv zeta. split; [discriminate|]. split; [reflexivity|].
  split; [reflexivity|]. split; [vm_compute; reflexivity|].
  unfold nearest_integer. split.
  - intros H. vm_compute in H. now apply H.
  - vm_compute. discriminate.
Qed.

(** ** Age bins: lemmas *)

(** The bin of every age, by the position of the age among the edges. *)
Lemma cut1_age_edges_cases (age : Z) :
  (age <= 20 /\ cut1 age_edges age = None) \/
  (20 < age <= 30 /\ cut1 age_edges age = Some (mkInterval 20 30)) \/
  (30 < age <= 40 /\ cut1 age_edges age = Some (mkInterval 30 40)) \/
  (40 < age <= 50 /\ cut1 age_edges age = Some (mkInterval 40 50)) \/
  (50 < age <= 60 /\ cut1 age_edges age = Some (mkInterval 50 60)) \/
  (60 < age /\ cut1 age_edges age = None).
Proof.
  unfold cut1, age_edges. cbn [searchsorted_left].
  destruct (Z.ltb_spec 20 age); [|left; now split].
  destruct (Z.ltb_spec 30 age); [|right; left; now split].
  destruct (Z.ltb_spec 40 age); [|do 2 right; left; now split].
  destruct (Z.ltb_spec 50 age); [|do 3 right; left; now split].
  destruct (Z.ltb_spec 60 age); [|do 4 right; left; now split].
  do 5 right. now split.
Qed.

Lemma age_interval_unique (age : Z) (iv iv' : Interval) :
  In iv (intervals age_edges) -> In iv' (intervals age_edges) ->
  contains iv age -> contains iv' age -> iv' = iv.
Proof.
  unfold contains. cbn [intervals age_edges In].
  intros [<-|[<-|[<-|[<-|[]]]]] [<-|[<-|[<-|[<-|[]]]]]; cbn [left_ right_];
    intros; first [reflexivity | lia].
Qed.

Lemma fig13_data_cons (r : Row) (view : DataFrame) :
  fig13_data (r :: view) =
  (cut1 age_edges (Age r), Attrition r) :: fig13_data view.
Proof. reflexivity. Qed.


(** ** Age bins: theorems *)

(** C5: every age with 20 < age <= 60 gets exactly one bin, the interval
    (lower, upper] that contains it; ages 30, 40 and 50 get the bin they
    close: (20,30], (30,40] and (40,50]. *)
Theorem age_bins_partition (age : Z) :
  20 < age <= 60 ->
  (exists iv, cut1 age_edges age = Some iv /\
              In iv (intervals age_edges) /\
              contains iv age /\
              forall iv', In iv' (intervals age_edges) ->
                          contains iv' age -> iv' = iv) /\
  cut1 age_edges 30 = Some (mkInterval 20 30) /\
  cut1 age_edges 40 = Some (mkInterval 30 40) /\
  cut1 age_edges 50 = Some (mkInterval 40 50).
Proof.
  intros Hage. split; [|repeat split].
  assert (Hex : exists iv, cut1 age_edges age = Some iv /\
                           In iv (intervals age_edges) /\ contains iv age).
  { destruct (cut1_age_edges_cases age)
      as [[H E]|[[H E]|[[H E]|[[H E]|[[H E]|[H E]]]]]]; try lia;
      eexists; (split; [exact E|]); unfold contains;
      cbn [intervals age_edges In left_ right_]; split; auto 6; lia. }
  destruct Hex as [iv [E [Hin Hc]]]. exists iv. repeat split; try assumption.
  - apply Hc.
  - apply Hc.
  - intros iv' Hin' Hc'. now apply (age_interval_unique age).
Qed.

Lemma age_bins_partition_witness :
  20 < 35 <= 60 /\
  (exists iv, cut1 age_edges 35 = Some iv /\
              In iv (intervals age_edges) /\
              contains iv 35 /\
              forall iv', In iv' (intervals age_edges) ->
                          contains iv' 35 -> iv' = iv) /\
  cut1 age_edges 30 = Some (mkInterval 20 30) /\
  cut1 age_edges 40 = Some (mkInterval 30 40) /\
  cut1 age_edges 50 = Some (mkInterval 40 50).
Proof.
  assert (H : 20 < 35 <= 60) by lia.
  split; [exact H|]. exact (age_bins_partition 35 H).
Defined.


(** ** Data loader: lemmas and theorem *)

Section LoaderFacts.

Variable File : Type.
Variable read_csv : File -> result DataFrame.

(** Once the cache holds an entry, a call returns it and leaves the cache
    as it is, whatever is on disk. *)
Lemma load_data_hit (disk : File) (c : Cache) (df : DataFrame) :
  entry c = Some df -> load_data File read_csv disk c = (Ok df, c).
Proof. unfold load_data. now intros ->. Qed.

Lemma load_many_hit (disks : list File) (c : Cache) (df : DataFrame) :
  entry c = Some df ->
  load_many File read_csv disks c = (repeat (Ok df) (List.length disks), c).
Proof.
  intros Hc. induction disks as [|d disks IH]; [reflexivity|].
  cbn [load_many]. rewrite (load_data_hit d c df Hc), IH. reflexivity.
Qed.

(** C9: when the first call of [load_data()] has read the file and
    returned a dataset, every later call returns that same dataset without
    reading the file again, whatever the file holds by then. *)
Theorem load_data_memoized (disk0 : File) (df : DataFrame)
  (disks : list File) :
  read_csv disk0 = Ok df ->
  let first := load_data File read_csv disk0 fresh in
  let later := load_many File read_csv disks (snd first) in
  fst first = Ok df /\
  reads (snd first) = 1%nat /\
  fst later = repeat (Ok df) (List.length disks) /\
  Forall (fun r => r = Ok df) (fst later) /\
  reads (snd later) = 1%nat.
Proof.
  intros Hread first later.
  assert (Hfirst : first = (Ok df, mkCache (Some df) 1)).
  { subst first. unfold load_data, fresh. cbn [entry reads].
    now rewrite Hread. }
  assert (Hlater : later = (repeat (Ok df) (List.length disks),
                            mkCache (Some df) 1)).
  { subst later. rewrite Hfirst. cbn [snd]. now apply load_many_hit. }
  rewrite Hfirst, Hlater. cbn [fst snd reads].
  repeat split. apply Forall_forall. intros r Hr.
  now apply repeat_spec in Hr.
Qed.

End LoaderFacts.

(** Witness for C9: the file is its parsed content or missing; after a first
    successful load, a changed file and a missing file still give the first
    dataset. *)
Lemma load_data_memoized_witness :
  let read := fun f : option DataFrame =>
                match f with
                | Some d => Ok d
                | None => Raise FileNotFoundError
                end in
  let d0 := [mkRow "Sales" "Male" 20 "Yes" 1000] in
  let d1 := [mkRow "HR" "Female" 41 "No" 2000] in
  read (Some d0) = Ok d0 /\
  fst (load_many _ read [Some d1; None]
         (snd (load_data _ read (Some d0) fresh))) = [Ok d0; Ok d0].
Proof.
  intros read d0 d1.
  assert (H : read (Some d0) = Ok d0) by reflexivity.
  split; [exact H|].
  exact (proj1 (proj2 (proj2
           (load_data_memoized _ read (Some d0) d0 [Some d1; None] H)))).
Defined.

(** Witness for C7 on a one-row dataset: an inverted range, an unknown
    department and an unknown gender each give the empty view. *)
Lemma filtered_df_degrades_witness :
  let df := [mkRow "Sales" "Male" 35 "No" 1000] in
  (50 < 60 /\ filtered_df df ["Sales"] ["Male"] (60, 50) = []) /\
  ((forall d, In d ["Legal"] -> ~ In d (column Department df)) /\
   filtered_df df ["Legal"] ["Male"] (30, 50) = []) /\
  ((forall g, In g ["Other"] -> ~ In g (column Gender df)) /\
   filtered_df df ["Sales"] ["Other"] (30, 50) = []) /\
  (~ In "Legal" (column Department df) /\
   filtered_df df ["Legal"; "Sales"] ["Male"] (30, 50) =
   filtered_df df ["Sales"] ["Male"] (30, 50)) /\
  (~ In "Other" (column Gender df) /\
   filtered_df df ["Sales"] ["Other"; "Male"] (30, 50) =
   filtered_df df ["Sales"] ["Male"] (30, 50)).
Proof.
  intros df.
  assert (H1 : 50 < 60) by lia.
  assert (H2 : forall d, In d ["Legal"] -> ~ In d (column Department df)).
  { intros d [<-|[]] [E|[]]. discriminate. }
  assert (H3 : forall g, In g ["Other"] -> ~ In g (column Gender df)).
  { intros g [<-|[]] [E|[]]. discriminate. }
  assert (H4 : ~ In "Legal" (column Department df)).
  { intros [E|[]]. discriminate. }
  assert (H5 : ~ In "Other" (column Gender df)).
  { intros [E|[]]. discriminate. }
  split; [split; [exact H1|]|split; [split; [exact H2|]|
    split; [split; [exact H3|]|split; [split; [exact H4|]|split; [exact H5|]]]]].
  - exact (proj1 (filtered_df_degrades df ["Sales"] ["Male"] 60 50) H1).
  - exact (proj1 (proj2 (filtered_df_degrades df ["Legal"] ["Male"] 30 50)) H2).
  - exact (proj1 (proj2 (proj2
             (filtered_df_degrades df ["Sales"] ["Other"] 30 50))) H3).
  - exact (proj1 (proj2 (proj2 (proj2
             (filtered_df_degrades df ["Sales"] ["Male"] 30 50)))) "Legal" H4).
  - exact (proj2 (proj2 (proj2 (proj2
             (filtered_df_degrades df ["Sales"] ["Male"] 30 50)))) "Other" H5).
Defined.

(** ** Sidebar widgets and the filter: further properties *)

Lemma In_unique (x : string) (s : list string) : In x (unique s) <-> In x s.
Proof.
  induction s as [|y s IH]; [reflexivity|].
  cbn [unique In]. rewrite filter_In, IH.
  destruct (String.eqb_spec x y) as [E|E]; cbn [negb].
  - subst. split; auto.
  - split.
    + intros [H|[H _]]; auto.
    + intros [H|H]; [auto|right; now split].
Qed.

Lemma NoDup_filter {A} (p : A -> bool) (l : list A) :
  NoDup l -> NoDup (filter p l).
Proof.
  induction 1 as [|x l Hx Hl IH]; cbn; [constructor|].
  destruct (p x); [constructor|]; try assumption.
  rewrite filter_In. tauto.
Qed.

Lemma NoDup_unique (s : list string) : NoDup (unique s).
Proof.
  induction s as [|y s IH]; cbn [unique]; constructor.
  - rewrite filter_In, String.eqb_refl. cbn. intros [_ H]. discriminate.
  - now apply NoDup_filter.
Qed.

Lemma fold_min_le (x : Z) (s : list Z) :
  fold_right Z.min x s <= x /\
  forall y, In y s -> fold_right Z.min x s <= y.
Proof.
  induction s as [|z s [IH1 IH2]]; cbn [fold_right In].
  - split; [lia | intros y []].
  - split; [lia|]. intros y [<-|Hy]; [lia|]. specialize (IH2 y Hy). lia.
Qed.

Lemma fold_max_ge (x : Z) (s : list Z) :
  x <= fold_right Z.max x s /\
  forall y, In y s -> y <= fold_right Z.max x s.
Proof.
  induction s as [|z s [IH1 IH2]]; cbn [fold_right In].
  - split; [lia | intros y []].
  - split; [lia|]. intros y [<-|Hy]; [lia|]. specialize (IH2 y Hy). lia.
Qed.

Lemma fold_min_In (x : Z) (s : list Z) : In (fold_right Z.min x s) (x :: s).
Proof.
  induction s as [|z s IH]; cbn [fold_right]; [now left|].
  destruct (Z.min_spec z (fold_right Z.min x s)) as [[_ ->]|[_ ->]].
  - right. now left.
  - destruct IH as [H|H]; [now left | right; now right].
Qed.

Lemma fold_max_In (x : Z) (s : list Z) : In (fold_right Z.max x s) (x :: s).
Proof.
  induction s as [|z s IH]; cbn [fold_right]; [now left|].
  destruct (Z.max_spec z (fold_right Z.max x s)) as [[_ ->]|[_ ->]].
  - destruct IH as [H|H]; [now left | right; now right].
  - right. now left.
Qed.

Lemma quot_1 (z : Z) : Z.quot z 1 = z.
Proof. apply Z.quot_1_r. Qed.

Lemma slider_bounds_cases (df : DataFrame) :
  (slider_bounds df = Raise ValueError <-> df = []) /\
  forall lo hi, slider_bounds df = Ok (lo, hi) ->
    In lo (column Age df) /\ In hi (column Age df) /\
    forall r, In r df -> lo <= Age r <= hi.
Proof.
  unfold slider_bounds, column. destruct df as [|r0 df].
  - split; [split; reflexivity|]. intros lo hi H. discriminate.
  - cbn [map series_min series_max Py.int bind inject_Z Qnum Qden].
    rewrite !quot_1. split; [split; discriminate|].
    intros lo hi H. injection H as <- <-.
    split; [apply fold_min_In|]. split; [apply fold_max_In|].
    intros r Hr.
    destruct (fold_min_le (Age r0) (map Age df)) as [Hm1 Hm2].
    destruct (fold_max_ge (Age r0) (map Age df)) as [HM1 HM2].
    destruct Hr as [<-|Hr]; [lia|].
    split; [apply Hm2 | apply HM2]; now apply in_map.
Qed.

(** The slider bounds raise [ValueError] exactly on a dataset without rows;
    otherwise they are the least and the greatest age of the dataset: both
    are ages of some row and every row's age lies between them. *)
Theorem slider_bounds_spec (df : DataFrame) :
  (slider_bounds df = Raise ValueError <-> df = []) /\
  forall lo hi, slider_bounds df = Ok (lo, hi) ->
    In lo (column Age df) /\ In hi (column Age df) /\
    forall r, In r df -> lo <= Age r <= hi.
Proof.
  split.
  - apply slider_bounds_cases.
  - intros lo hi H. now apply slider_bounds_cases.
Qed.

Lemma slider_bounds_spec_witness :
  let df := [mkRow "Sales" "Male" 29 "Yes" 1000;
             mkRow "HR" "Female" 41 "No" 2000;
             mkRow "Sales" "Female" 35 "No" 1500] in
  slider_bounds df = Ok (29, 41) /\
  In 29 (column Age df) /\ In 41 (column Age df) /\
  forall r, In r df -> 29 <= Age r <= 41.
Proof.
  intros df.
  assert (H : slider_bounds df = Ok (29, 41)) by reflexivity.
  split; [exact H|]. exact (proj2 (slider_bounds_spec df) 29 41 H).
Defined.

Lemma getitem_mask_map (p : Row -> bool) (df : DataFrame) :
  getitem_mask df (map p df) = filter p df.
Proof.
  induction df as [|r df IH]; [reflexivity|].
  cbn [map getitem_mask filter]. now rewrite IH.
Qed.

Lemma filter_all_true {A} (p : A -> bool) (l : list A) :
  (forall x, In x l -> p x = true) -> filter p l = l.
Proof.
  induction l as [|x l IH]; cbn; intros H; [reflexivity|].
  rewrite (H x) by now left. f_equal. apply IH. intros y Hy. apply H.
  now right.
Qed.

Lemma filter_filter_and {A} (p q : A -> bool) (l : list A) :
  filter p (filter q l) = filter (fun x => q x && p x) l.
Proof.
  induction l as [|x l IH]; cbn; [reflexivity|].
  destruct (q x); cbn; [destruct (p x)|]; now rewrite IH.
Qed.

Lemma default_selection_filter (df : DataFrame) (lo hi : Z) :
  filtered_df df (default_departments df) (default_genders df) (lo, hi) =
  filter (fun r => (lo <=? Age r) && (Age r <=? hi)) df.
Proof.
  rewrite filtered_df_filter. apply filter_ext_in. intros r Hr.
  unfold selectedb, default_departments, default_genders.
  assert (Hd : existsb (String.eqb (Department r))
                 (unique (column Department df)) = true).
  { apply existsb_eqb_In, In_unique. unfold column. now apply in_map. }
  assert (Hg : existsb (String.eqb (Gender r))
                 (unique (column Gender df)) = true).
  { apply existsb_eqb_In, In_unique. unfold column. now apply in_map. }
  now rewrite Hd, Hg.
Qed.

(** The default multiselect choices restrict nothing: with them the view
    is the dataset rows whose age lies in the chosen range. *)
Theorem default_selection_filters_age_only (df : DataFrame) (lo hi : Z) :
  filtered_df df (default_departments df) (default_genders df) (lo, hi) =
  getitem_mask df (Series.between (column Age df) lo hi) /\
  forall r, In r (filtered_df df (default_departments df)
                    (default_genders df) (lo, hi)) <->
            In r df /\ lo <= Age r <= hi.
Proof.
  rewrite default_selection_filter. split.
  - unfold Series.between, column. rewrite map_map.
    now rewrite getitem_mask_map.
  - intros r. rewrite filter_In, andb_true_iff, !Z.leb_le. tauto.
Qed.

(** With the default multiselect choices and the slider moved to its two
    bounds, the view is the whole dataset. *)
Theorem full_range_default_selection (df : DataFrame) (lo hi : Z) :
  slider_bounds df = Ok (lo, hi) ->
  filtered_df df (default_departments df) (default_genders df) (lo, hi) = df.
Proof.
  intros Hb. rewrite default_selection_filter.
  apply filter_all_true. intros r Hr.
  destruct (slider_bounds_cases df) as [_ H].
  destruct (H lo hi Hb) as [_ [_ Hall]]. specialize (Hall r Hr).
  apply andb_true_iff. rewrite !Z.leb_le. lia.
Qed.

Lemma full_range_default_selection_witness :
  let df := [mkRow "Sales" "Male" 29 "Yes" 1000;
             mkRow "HR" "Female" 41 "No" 2000;
             mkRow "Sales" "Female" 35 "No" 1500] in
  slider_bounds df = Ok (29, 41) /\
  filtered_df df (default_departments df) (default_genders df) (29, 41) = df.
Proof.
  intros df.
  assert (H : slider_bounds df = Ok (29, 41)) by reflexivity.
  split; [exact H|]. exact (full_range_default_selection df 29 41 H).
Defined.

(** Narrowing a selection never adds rows: with fewer departments, fewer
    genders and a narrower age range, the view is the wider view with some
    rows dropped, order kept. *)
Theorem filtered_df_monotone df ds ds' gs gs' lo lo' hi hi' :
  (forall d, In d ds -> In d ds') ->
  (forall g, In g gs -> In g gs') ->
  lo' <= lo -> hi <= hi' ->
  sub (filtered_df df ds gs (lo, hi)) (filtered_df df ds' gs' (lo', hi')) /\
  filtered_df df ds gs (lo, hi) =
  filtered_df (filtered_df df ds' gs' (lo', hi')) ds gs (lo, hi).
Proof.
  intros Hd Hg Hlo Hhi.
  assert (E : filtered_df df ds gs (lo, hi) =
              filtered_df (filtered_df df ds' gs' (lo', hi')) ds gs (lo, hi)).
  { rewrite !filtered_df_filter, filter_filter_and.
    apply filter_ext. intros r.
    destruct (selectedb ds gs lo hi r) eqn:E1; [|now rewrite andb_false_r].
    rewrite andb_true_r. symmetry. apply selectedb_spec.
    apply selectedb_spec in E1. destruct E1 as [H1 [H2 H3]].
    unfold selected. repeat split; auto; lia. }
  split; [|exact E].
  rewrite E at 1. rewrite (filtered_df_filter (filtered_df _ _ _ _)).
  apply filter_sub.
Qed.

Lemma filtered_df_monotone_witness :
  let df := [mkRow "Sales" "Male" 29 "Yes" 1000;
             mkRow "HR" "Female" 41 "No" 2000;
             mkRow "Sales" "Female" 35 "No" 1500] in
  (forall d, In d ["Sales"] -> In d ["HR"; "Sales"]) /\
  (forall g, In g ["Female"] -> In g ["Female"; "Male"]) /\
  20 <= 30 /\ 40 <= 50 /\
  sub (filtered_df df ["Sales"] ["Female"] (30, 40))
      (filtered_df df ["HR"; "Sales"] ["Female"; "Male"] (20, 50)).
Proof.
  intros df.
  assert (H1 : forall d, In d ["Sales"] -> In d ["HR"; "Sales"]).
  { intros d [<-|[]]. right. now left. }
  assert (H2 : forall g, In g ["Female"] -> In g ["Female"; "Male"]).
  { intros g [<-|[]]. now left. }
  assert (H3 : 20 <= 30) by lia.
  assert (H4 : 40 <= 50) by lia.
  split; [exact H1|]. split; [exact H2|]. split; [exact H3|].
  split; [exact H4|].
  exact (proj1 (filtered_df_monotone df ["Sales"] ["HR"; "Sales"]
                  ["Female"] ["Female"; "Male"] 30 20 40 50 H1 H2 H3 H4)).
Defined.

(** Two filters applied one after the other keep the rows that satisfy both
    selections, and the order of the two filters does not matter. *)
Theorem filtered_df_compose df ds gs lo hi ds' gs' lo' hi' :
  (forall r, In r (filtered_df (filtered_df df ds gs (lo, hi))
                     ds' gs' (lo', hi')) <->
             In r df /\ selected ds gs lo hi r /\ selected ds' gs' lo' hi' r) /\
  filtered_df (filtered_df df ds gs (lo, hi)) ds' gs' (lo', hi') =
  filtered_df (filtered_df df ds' gs' (lo', hi')) ds gs (lo, hi) /\
  filtered_df (filtered_df df ds gs (lo, hi)) ds gs (lo', hi') =
  filtered_df df ds gs (Z.max lo lo', Z.min hi hi').
Proof.
  rewrite !filtered_df_filter, !filter_filter_and. split; [|split].
  - intros r. rewrite filter_In, andb_true_iff, !selectedb_spec. tauto.
  - apply filter_ext. intros r. apply andb_comm.
  - apply filter_ext. intros r. unfold selectedb.
    destruct (existsb (String.eqb (Department r)) ds); [|reflexivity].
    destruct (existsb (String.eqb (Gender r)) gs); [|reflexivity].
    cbn [andb].
    destruct (Z.leb_spec lo (Age r)), (Z.leb_spec (Age r) hi),
      (Z.leb_spec lo' (Age r)), (Z.leb_spec (Age r) hi'),
      (Z.leb_spec (Z.max lo lo') (Age r)),
      (Z.leb_spec (Age r) (Z.min hi hi')); cbn; first [reflexivity | lia].
Qed.

(** The view depends only on which values are selected, not on their order
    in the multiselect nor on repetitions. *)
Theorem filtered_df_selection_as_set df ds ds' gs gs' age_range :
  (forall d, In d ds <-> In d ds') ->
  (forall g, In g gs <-> In g gs') ->
  filtered_df df ds gs age_range = filtered_df df ds' gs' age_range.
Proof.
  intros Hd Hg. destruct age_range as [lo hi].
  rewrite !filtered_df_filter. apply filter_ext. intros r.
  apply eq_true_iff_eq. rewrite !selectedb_spec. unfold selected.
  rewrite Hd, Hg. tauto.
Qed.

Lemma filtered_df_selection_as_set_witness :
  let df := [mkRow "Sales" "Male" 29 "Yes" 1000;
             mkRow "HR" "Female" 41 "No" 2000] in
  (forall d, In d ["HR"; "Sales"] <-> In d ["Sales"; "HR"; "Sales"]) /\
  (forall g, In g ["Male"] <-> In g ["Male"; "Male"]) /\
  filtered_df df ["HR"; "Sales"] ["Male"] (20, 50) =
  filtered_df df ["Sales"; "HR"; "Sales"] ["Male"; "Male"] (20, 50).
Proof.
  intros df.
  assert (H1 : forall d, In d ["HR"; "Sales"] <-> In d ["Sales"; "HR"; "Sales"]).
  { intros d. cbn [In]. tauto. }
  assert (H2 : forall g, In g ["Male"] <-> In g ["Male"; "Male"]).
  { intros g. cbn [In]. tauto. }
  split; [exact H1|]. split; [exact H2|].
  exact (filtered_df_selection_as_set df _ _ _ _ (20, 50) H1 H2).
Defined.

(** ** KPI expressions: further properties *)

Lemma sum_bounds (lo hi : Z) (s : list Z) :
  (forall x, In x s -> lo <= x <= hi) ->
  lo * Z.of_nat (List.length s) <= sum s <= hi * Z.of_nat (List.length s).
Proof.
  induction s as [|x s IH]; intros H; [cbn; lia|].
  assert (Hx : lo <= x <= hi) by (apply H; now left).
  assert (Hs : forall y, In y s -> lo <= y <= hi)
    by (intros y Hy; apply H; now right).
  specialize (IH Hs). unfold sum in *. cbn [fold_right List.length].
  rewrite Nat2Z.inj_succ. lia.
Qed.

Lemma quot_between (a b s n : Z) :
  0 < n -> a * n <= s <= b * n -> a <= Z.quot s n <= b.
Proof.
  intros Hn [Ha Hb].
  pose proof (Z.quot_rem' s n) as Hqr.
  destruct (Z_le_gt_dec 0 s) as [Hs|Hs].
  - pose proof (Z.rem_bound_pos s n Hs Hn). nia.
  - pose proof (Z.rem_bound_pos (- s) n ltac:(lia) Hn) as Hrb.
    rewrite Z.rem_opp_l' in Hrb. nia.
Qed.

(** The mean of a column whose entries lie between two integers of
    magnitude below 2^53 lies between them, also after rounding. *)
Lemma mean_between (c : Row -> Z) (lo hi : Z) (view : DataFrame) :
  view <> [] -> - 2 ^ 53 < lo -> hi < 2 ^ 53 ->
  (forall r, In r view -> lo <= c r <= hi) ->
  (inject_Z lo <= Py.fl64 (sum (column c view)
                           # Pos.of_nat (List.length view))
   <= inject_Z hi)%Q.
Proof.
  intros Hne Hlo Hhi Hall. apply fl64_between; try assumption.
  assert (Hs : forall x, In x (column c view) -> lo <= x <= hi).
  { intros x Hx. unfold column in Hx. apply in_map_iff in Hx.
    destruct Hx as [r [<- Hr]]. now apply Hall. }
  apply sum_bounds in Hs.
  assert (Hl : List.length (column c view) = List.length view)
    by (unfold column; apply length_map).
  rewrite Hl in Hs.
  rewrite Qle_inject_num, Qle_num_inject, pos_of_nat_length by assumption.
  exact Hs.
Qed.

(** The KPI block produces its three values exactly when the view has at
    least one row. *)
Theorem kpi_overview_ok_iff_nonempty (view : DataFrame) :
  (exists v, kpi_overview view = Ok v) <-> view <> [].
Proof.
  split.
  - intros [v Hv] ->. discriminate.
  - intros Hne. unfold kpi_overview, average_income.
    rewrite mean_nonempty by (unfold column; now apply map_nonempty).
    cbn [Py.int bind]. eexists. reflexivity.
Qed.

(** On a non-empty view produced by the filter, with age bounds of
    magnitude at most 2^49 and ages totalling at most 2^53 in magnitude,
    the Average Age metric shows a number of tenths within the selected age
    range. *)
Theorem average_age_within_range df ds gs lo hi :
  filtered_df df ds gs (lo, hi) <> [] ->
  - 2 ^ 49 <= lo -> hi <= 2 ^ 49 ->
  sum_abs (column Age (filtered_df df ds gs (lo, hi))) <= 2 ^ 53 ->
  exists t : Z,
    average_age (filtered_df df ds gs (lo, hi)) = Fin (Py.fl64 (t # 10)) /\
    lo * 10 <= t <= hi * 10.
Proof.
  intros Hne Hlo Hhi _. set (view := filtered_df df ds gs (lo, hi)) in *.
  assert (Hall : forall r, In r view -> lo <= Age r <= hi).
  { intros r Hr. subst view. rewrite filtered_df_filter in Hr.
    apply filter_In in Hr. destruct Hr as [_ Hr].
    apply selectedb_spec in Hr. apply Hr. }
  pose proof (mean_between Age lo hi view Hne ltac:(lia) ltac:(lia) Hall)
    as Hm.
  eexists. split; [now apply average_age_value|].
  apply rint_between. apply fl64_between; [lia | lia |].
  rewrite !inject_Z_mult.
  set (x1 := Py.fl64 (sum (column Age view)
                      # Pos.of_nat (List.length view))) in *.
  set (L := inject_Z lo) in *. set (H := inject_Z hi) in *.
  change (inject_Z 10) with (10 # 1)%Q. lra.
Qed.

Lemma average_age_within_range_witness :
  let df := [mkRow "Sales" "Male" 29 "Yes" 1000;
             mkRow "HR" "Female" 41 "No" 2000;
             mkRow "Sales" "Female" 35 "No" 1500] in
  filtered_df df ["Sales"; "HR"] ["Female"] (30, 50) <> [] /\
  - 2 ^ 49 <= 30 /\ 50 <= 2 ^ 49 /\
  sum_abs (column Age (filtered_df df ["Sales"; "HR"] ["Female"] (30, 50)))
  <= 2 ^ 53 /\
  exists t : Z,
    average_age (filtered_df df ["Sales"; "HR"] ["Female"] (30, 50))
    = Fin (Py.fl64 (t # 10)) /\
    30 * 10 <= t <= 50 * 10.
Proof.
  intros df.
  assert (H : filtered_df df ["Sales"; "HR"] ["Female"] (30, 50) <> [])
    by discriminate.
  assert (H1 : - 2 ^ 49 <= 30) by (vm_compute; discriminate).
  assert (H2 : 50 <= 2 ^ 49) by (vm_compute; discriminate).
  assert (H3 : sum_abs (column Age (filtered_df df ["Sales"; "HR"]
                                      ["Female"] (30, 50))) <= 2 ^ 53)
    by (vm_compute; discriminate).
  split; [exact H|]. split; [exact H1|]. split; [exact H2|].
  split; [exact H3|].
  exact (average_age_within_range df ["Sales"; "HR"] ["Female"] 30 50
           H H1 H2 H3).
Defined.

(** On a non-empty view whose monthly incomes all lie between integers a
    and b of magnitude below 2^53, and total at most 2^53 in magnitude, the
    Average Income metric does not raise and lies between a and b. *)
Theorem average_income_between (view : DataFrame) (a b : Z) :
  view <> [] ->
  - 2 ^ 53 < a -> b < 2 ^ 53 ->
  sum_abs (column MonthlyIncome view) <= 2 ^ 53 ->
  (forall r, In r view -> a <= MonthlyIncome r <= b) ->
  exists i : Z, average_income view = Ok i /\ a <= i <= b.
Proof.
  intros Hne Ha Hb _ Hall.
  pose proof (mean_between MonthlyIncome a b view Hne Ha Hb Hall) as Hm.
  rewrite average_income_value by assumption. cbn [Py.int].
  eexists. split; [reflexivity|].
  destruct (Py.fl64 _) as [num den].
  rewrite Qle_inject_num, Qle_num_inject in Hm.
  apply quot_between; [lia | exact Hm].
Qed.

Lemma average_income_between_witness :
  let view := [mkRow "Sales" "Male" 29 "Yes" 1000;
               mkRow "HR" "Female" 41 "No" 2000;
               mkRow "Sales" "Female" 35 "No" 1500] in
  view <> [] /\ - 2 ^ 53 < 1000 /\ 2000 < 2 ^ 53 /\
  sum_abs (column MonthlyIncome view) <= 2 ^ 53 /\
  (forall r, In r view -> 1000 <= MonthlyIncome r <= 2000) /\
  exists i : Z, average_income view = Ok i /\ 1000 <= i <= 2000.
Proof.
  intros view.
  assert (H1 : view <> []) by discriminate.
  assert (Ha : - 2 ^ 53 < 1000) by (vm_compute; reflexivity).
  assert (Hb : 2000 < 2 ^ 53) by (vm_compute; reflexivity).
  assert (Hs : sum_abs (column MonthlyIncome view) <= 2 ^ 53)
    by (vm_compute; discriminate).
  assert (H2 : forall r, In r view -> 1000 <= MonthlyIncome r <= 2000).
  { intros r [<-|[<-|[<-|[]]]]; cbn; lia. }
  split; [exact H1|]. split; [exact Ha|]. split; [exact Hb|].
  split; [exact Hs|]. split; [exact H2|].
  exact (average_income_between view 1000 2000 H1 Ha Hb Hs H2).
Defined.

(** On a non-empty view the Attrition Rate metric is the binary64 number
    nearest to a number of hundredths between 0 and 100; it reads "0.0%"
    when no row has Attrition "Yes" and "100.0%" when every row has. *)
Theorem attrition_rate_bounds (view : DataFrame) :
  view <> [] ->
  (exists k : Z, attrition_rate view = Fin (Py.fl64 (k # 100)) /\
                 0 <= k <= 100 * 100) /\
  (count_yes view = 0%nat -> attrition_rate_label view = "0.0%") /\
  (count_yes view = List.length view ->
   attrition_rate_label view = "100.0%").
Proof.
  intros Hne. pose proof (attrition_rate_value view Hne) as Hv.
  pose proof (pos_of_nat_length view Hne) as Hp.
  split; [|split].
  - destruct (attrition_rate_hundredths view Hne) as [k [Hk [Hb _]]].
    now exists k.
  - intros H0.
    rewrite (attrition_rate_label_value view 0); [reflexivity | lia |].
    rewrite Hv, H0.
    rewrite (fl64_zero (Z.of_nat 0 # _)) by reflexivity.
    vm_compute. reflexivity.
  - intros Hall.
    rewrite (attrition_rate_label_value view 10000); [reflexivity | lia |].
    rewrite Hv, Hall.
    rewrite (fl64_compat (Z.of_nat (List.length view) # _) 1)
      by (unfold Qeq; cbn [Qnum Qden]; lia).
    vm_compute. reflexivity.
Qed.

Lemma attrition_rate_bounds_witness :
  let view := [mkRow "Sales" "Male" 29 "Yes" 1000;
               mkRow "HR" "Female" 41 "Yes" 2000] in
  view <> [] /\ count_yes view = List.length view /\
  attrition_rate_label view = "100.0%".
Proof.
  intros view.
  assert (H1 : view <> []) by discriminate.
  assert (H2 : count_yes view = List.length view) by reflexivity.
  split; [exact H1|]. split; [exact H2|].
  exact (proj2 (proj2 (attrition_rate_bounds view H1)) H2).
Defined.

(** ** Age bins: further properties *)

Lemma cut1_low (b x : Z) (rest : list Z) :
  x <= b -> cut1 (b :: rest) x = None.
Proof.
  intros H. unfold cut1. cbn [searchsorted_left].
  destruct (Z.ltb_spec b x); [lia|reflexivity].
Qed.

Lemma cut1_single (b x : Z) : cut1 [b] x = None.
Proof.
  unfold cut1. cbn [searchsorted_left]. now destruct (b <? x).
Qed.

Lemma cut1_hit (b c x : Z) (rest : list Z) :
  b < x -> x <= c -> cut1 (b :: c :: rest) x = Some (mkInterval b c).
Proof.
  intros H1 H2. unfold cut1. cbn [searchsorted_left].
  destruct (Z.ltb_spec b x); [|lia].
  destruct (Z.ltb_spec c x); [lia|reflexivity].
Qed.

Lemma cut1_step (b c x : Z) (rest : list Z) :
  b < x -> c < x -> cut1 (b :: c :: rest) x = cut1 (c :: rest) x.
Proof.
  intros H1 H2. unfold cut1. cbn [searchsorted_left].
  destruct (Z.ltb_spec b x); [|lia].
  destruct (Z.ltb_spec c x); [|lia].
  cbn [List.length Nat.eqb orb intervals Nat.sub nth_error].
  rewrite Nat.sub_0_r. reflexivity.
Qed.

Lemma intervals_left_ge (b : Z) (rest : list Z) (iv : Interval) :
  StronglySorted Z.lt (b :: rest) -> In iv (intervals (b :: rest)) ->
  b <= left_ iv.
Proof.
  revert b. induction rest as [|c rest IH]; intros b Hs Hin; [destruct Hin|].
  cbn [intervals In] in Hin. destruct Hin as [<-|Hin]; [cbn; lia|].
  inversion Hs as [|? ? Hs' Hall]; subst.
  specialize (IH c Hs' Hin).
  apply Forall_inv in Hall. lia.
Qed.

(** [pd.cut] over strictly increasing edges: the result is the one interval
    between consecutive edges that contains the value, and it is null
    exactly when no such interval contains the value. *)
Theorem cut1_sorted_spec (bins : list Z) (x : Z) :
  Sorted Z.lt bins ->
  match cut1 bins x with
  | Some iv =>
      In iv (intervals bins) /\ contains iv x /\
      forall iv', In iv' (intervals bins) -> contains iv' x -> iv' = iv
  | None => forall iv, In iv (intervals bins) -> ~ contains iv x
  end.
Proof.
  intros Hs. apply Sorted_StronglySorted in Hs;
    [|intros a b c; apply Z.lt_trans].
  induction bins as [|b bins IH]; [intros iv []|].
  destruct bins as [|c rest].
  - rewrite cut1_single. intros iv [].
  - assert (Hs' : StronglySorted Z.lt (c :: rest)) by now inversion Hs.
    specialize (IH Hs').
    destruct (Z_lt_le_dec b x) as [Hb|Hb].
    + destruct (Z_lt_le_dec c x) as [Hc|Hc].
      * rewrite cut1_step by assumption.
        destruct (cut1 (c :: rest) x) as [iv|].
        -- destruct IH as [Hin [Hcon Huniq]]. split; [now right|].
           split; [assumption|]. intros iv' [<-|Hin'] Hc'.
           ++ unfold contains in Hc'. cbn in Hc'. lia.
           ++ now apply Huniq.
        -- intros iv [<-|Hin] Hcon.
           ++ unfold contains in Hcon. cbn in Hcon. lia.
           ++ now apply (IH iv).
      * rewrite cut1_hit by assumption. split; [now left|].
        split; [unfold contains; cbn; lia|].
        intros iv' [<-|Hin'] Hc'; [reflexivity|].
        pose proof (intervals_left_ge c rest iv' Hs' Hin').
        unfold contains in Hc'. lia.
    + rewrite cut1_low by assumption. intros iv Hin Hcon.
      pose proof (intervals_left_ge b (c :: rest) iv Hs Hin).
      unfold contains in Hcon. lia.
Qed.

Lemma cut1_sorted_spec_witness :
  Sorted Z.lt [0; 18; 65] /\
  match cut1 [0; 18; 65] 18 with
  | Some iv =>
      In iv (intervals [0; 18; 65]) /\ contains iv 18 /\
      forall iv', In iv' (intervals [0; 18; 65]) -> contains iv' 18 -> iv' = iv
  | None => forall iv, In iv (intervals [0; 18; 65]) -> ~ contains iv 18
  end.
Proof.
  assert (H : Sorted Z.lt [0; 18; 65]).
  { repeat constructor. }
  split; [exact H|]. exact (cut1_sorted_spec [0; 18; 65] 18 H).
Defined.

Lemma fig13_data_all_rows (view : DataFrame) :
  (forall r, In r view -> 20 < Age r <= 60) ->
  map snd (fig13_data view) = column Attrition view /\
  Forall2 (fun r pt => exists iv, fst pt = Some iv /\ contains iv (Age r))
          view (fig13_data view).
Proof.
  induction view as [|r view IH]; intros Hall.
  - split; [reflexivity | constructor].
  - assert (Hr : 20 < Age r <= 60) by (apply Hall; now left).
    assert (Hv : forall r', In r' view -> 20 < Age r' <= 60)
      by (intros r' Hr'; apply Hall; now right).
    destruct (IH Hv) as [IH1 IH2].
    rewrite fig13_data_cons. split.
    + cbn [map snd column]. f_equal. exact IH1.
    + constructor; [|exact IH2]. cbn [fst].
      destruct (cut1_age_edges_cases (Age r))
        as [[H E]|[[H E]|[[H E]|[[H E]|[[H E]|[H E]]]]]]; try lia;
        rewrite E; eexists; (split; [reflexivity|]);
        unfold contains; cbn; lia.
Qed.

(** With the slider inside (20, 60] no row of the view is left without an
    age group in chart 17: its data has one entry per row, in row order,
    carrying the row's Attrition value and a non-null bin that contains
    the row's age. *)
Theorem fig13_keeps_view df ds gs lo hi :
  20 < lo -> hi <= 60 ->
  let view := filtered_df df ds gs (lo, hi) in
  map snd (fig13_data view) = column Attrition view /\
  Forall2 (fun r pt => exists iv, fst pt = Some iv /\ contains iv (Age r))
          view (fig13_data view).
Proof.
  intros Hlo Hhi view. apply fig13_data_all_rows. intros r Hr.
  subst view. rewrite filtered_df_filter in Hr. apply filter_In in Hr.
  destruct Hr as [_ Hr]. apply selectedb_spec in Hr.
  destruct Hr as [_ [_ Hr]]. lia.
Qed.

Lemma fig13_keeps_view_witness :
  let df := [mkRow "Sales" "Male" 29 "Yes" 1000;
             mkRow "HR" "Female" 41 "No" 2000;
             mkRow "Sales" "Female" 35 "No" 1500] in
  20 < 30 /\ 50 <= 60 /\
  map snd (fig13_data (filtered_df df ["Sales"; "HR"] ["Female"] (30, 50)))
  = column Attrition (filtered_df df ["Sales"; "HR"] ["Female"] (30, 50)).
Proof.
  intros df.
  assert (H1 : 20 < 30) by lia. assert (H2 : 50 <= 60) by lia.
  split; [exact H1|]. split; [exact H2|].
  exact (proj1 (fig13_keeps_view df ["Sales"; "HR"] ["Female"] 30 50 H1 H2)).
Defined.

(** ** Counts behind the overview charts: lemmas *)

Lemma insert_desc_perm (e : string * Z) (l : list (string * Z)) :
  Permutation (insert_desc e l) (e :: l).
Proof.
  induction l as [|e' l IH]; cbn [insert_desc]; [reflexivity|].
  destruct (snd e' <=? snd e); [reflexivity|].
  rewrite IH. apply perm_swap.
Qed.

Lemma sort_desc_perm (l : list (string * Z)) : Permutation (sort_desc l) l.
Proof.
  induction l as [|e l IH]; [reflexivity|].
  unfold sort_desc in *. cbn [fold_right].
  rewrite insert_desc_perm. now constructor.
Qed.

Lemma insert_desc_sorted (e : string * Z) (l : list (string * Z)) :
  Sorted (fun a b => snd b <= snd a) l ->
  Sorted (fun a b => snd b <= snd a) (insert_desc e l).
Proof.
  induction 1 as [|e' l Hs IH Hhd]; cbn [insert_desc].
  - repeat constructor.
  - destruct (Z.leb_spec (snd e') (snd e)).
    + constructor; [now constructor|]. now constructor.
    + constructor; [exact IH|].
      destruct l as [|e'' l]; cbn [insert_desc].
      * constructor. lia.
      * destruct (snd e'' <=? snd e); constructor; [lia|].
        now apply HdRel_inv in Hhd.
Qed.

Lemma sort_desc_sorted (l : list (string * Z)) :
  Sorted (fun a b => snd b <= snd a) (sort_desc l).
Proof.
  induction l as [|e l IH]; [constructor|].
  unfold sort_desc in *. cbn [fold_right]. now apply insert_desc_sorted.
Qed.

Lemma insert_str_perm (x : string) (l : list string) :
  Permutation (insert_str x l) (x :: l).
Proof.
  induction l as [|y l IH]; cbn [insert_str]; [reflexivity|].
  destruct (String.leb x y); [reflexivity|].
  rewrite IH. apply perm_swap.
Qed.

Lemma sort_str_perm (l : list string) : Permutation (sort_str l) l.
Proof.
  induction l as [|x l IH]; [reflexivity|].
  unfold sort_str in *. cbn [fold_right].
  rewrite insert_str_perm. now constructor.
Qed.

Lemma In_sort_str (x : string) (l : list string) :
  In x (sort_str l) <-> In x l.
Proof.
  split; apply Permutation_in;
    [apply sort_str_perm | symmetry; apply sort_str_perm].
Qed.

Lemma sum_perm (l l' : list Z) : Permutation l l' -> sum l = sum l'.
Proof.
  unfold sum. induction 1; cbn [fold_right]; lia.
Qed.

Lemma count_cons (v x : string) (s : list string) :
  count v (x :: s) = (if String.eqb v x then 1 else 0) + count v s.
Proof.
  unfold count. cbn [filter].
  destruct (String.eqb v x); cbn [List.length]; lia.
Qed.

Lemma count_nonneg (v : string) (s : list string) : 0 <= count v s.
Proof. unfold count. lia. Qed.

Lemma count_pos_iff (v : string) (s : list string) :
  0 < count v s <-> In v s.
Proof.
  induction s as [|x s IH]; [cbn; split; [lia|tauto]|].
  rewrite count_cons. pose proof (count_nonneg v s). cbn [In].
  destruct (String.eqb_spec v x) as [E|E].
  - subst. split; [auto|lia].
  - rewrite Z.add_0_l, IH. split; [auto|]. intros [H'|H']; [congruence|auto].
Qed.

(** Over distinct labels that cover the column, the counts add up to the
    number of entries. *)
Lemma sum_counts (ks s : list string) :
  NoDup ks -> (forall x, In x s -> In x ks) ->
  sum (map (fun k => count k s) ks) = Z.of_nat (List.length s).
Proof.
  intros Hnd. induction s as [|x s IH]; intros Hcov.
  - cbn [List.length]. induction ks as [|k ks IHk]; [reflexivity|].
    unfold sum in *. cbn [map fold_right].
    rewrite IHk by now inversion Hnd. reflexivity.
  - assert (Hx : In x ks) by (apply Hcov; now left).
    assert (Hs : forall y, In y s -> In y ks)
      by (intros y Hy; apply Hcov; now right).
    specialize (IH Hs). cbn [List.length]. rewrite Nat2Z.inj_succ, <- IH.
    clear IH Hcov Hs.
    induction ks as [|k ks IHk]; [destruct Hx|].
    inversion Hnd as [|? ? Hk Hnd']; subst.
    unfold sum in *. cbn [map fold_right]. rewrite count_cons.
    destruct Hx as [->|Hx].
    + rewrite String.eqb_refl.
      assert (E : map (fun k => count k (x :: s)) ks =
                  map (fun k => count k s) ks).
      { apply map_ext_in. intros k Hk'. rewrite count_cons.
        destruct (String.eqb_spec k x); [subst; contradiction|lia]. }
      rewrite E. lia.
    + destruct (String.eqb_spec k x); [subst; contradiction|].
      rewrite (IHk Hnd' Hx). lia.
Qed.

Lemma lookup_In {V} (c : string) (l : list (string * V)) (v : V) :
  NoDup (map fst l) -> (lookup c l = Some v <-> In (c, v) l).
Proof.
  unfold lookup. induction l as [|[k w] l IH]; intros Hnd.
  - cbn. split; [discriminate|tauto].
  - cbn [find fst map] in *. inversion Hnd as [|? ? Hk Hnd']; subst.
    destruct (String.eqb_spec k c) as [E|E].
    + subst. cbn [snd]. split.
      * intros H. injection H as <-. now left.
      * intros [H|H]; [now injection H as <-|].
        exfalso. apply Hk. apply (in_map fst) in H. exact H.
    + rewrite (IH Hnd'). split; [intros H; now right|].
      intros [H|H]; [injection H as H1 H2; congruence|exact H].
Qed.

Lemma lookup_None {V} (c : string) (l : list (string * V)) :
  lookup c l = None <-> ~ In c (map fst l).
Proof.
  unfold lookup. induction l as [|[k w] l IH]; [cbn; tauto|].
  cbn [find fst map In].
  destruct (String.eqb_spec k c) as [E|E].
  - split; [discriminate|]. intros H. exfalso. apply H. now left.
  - rewrite IH. tauto.
Qed.

Lemma lookup_map_key {V} (f : string -> V) (k : string) (ks : list string) :
  In k ks -> lookup k (map (fun k => (k, f k)) ks) = Some (f k).
Proof.
  unfold lookup. induction ks as [|k' ks IH]; [intros []|].
  cbn [map find fst]. intros Hin.
  destruct (String.eqb_spec k' k) as [E|E]; [now subst|].
  destruct Hin as [H|H]; [congruence|]. now apply IH.
Qed.

Lemma value_counts_perm (s : list string) :
  Permutation (value_counts s) (map (fun v => (v, count v s)) (unique s)).
Proof. apply sort_desc_perm. Qed.

Lemma value_counts_keys (s : list string) :
  Permutation (map fst (value_counts s)) (unique s).
Proof.
  rewrite (Permutation_map fst (value_counts_perm s)).
  rewrite map_map. cbn [fst]. now rewrite map_id.
Qed.

Lemma value_counts_NoDup (s : list string) : NoDup (map fst (value_counts s)).
Proof.
  apply (Permutation_NoDup (l := unique s)).
  - symmetry. apply value_counts_keys.
  - apply NoDup_unique.
Qed.

Lemma value_counts_In (s : list string) (v : string) (c : Z) :
  In (v, c) (value_counts s) <-> In v s /\ c = count v s.
Proof.
  split.
  - intros H. apply (Permutation_in _ (value_counts_perm s)) in H.
    apply in_map_iff in H. destruct H as [w [E Hw]]. injection E as -> <-.
    split; [now apply In_unique | reflexivity].
  - intros [Hv ->].
    apply (Permutation_in _ (Permutation_sym (value_counts_perm s))).
    apply in_map_iff. exists v. split; [reflexivity | now apply In_unique].
Qed.

Lemma lookup_value_counts (s : list string) (v : string) :
  lookup v (value_counts s) =
  if count v s =? 0 then None else Some (count v s).
Proof.
  pose proof (count_pos_iff v s) as Hp. pose proof (count_nonneg v s).
  destruct (Z.eqb_spec (count v s) 0) as [E|E].
  - apply lookup_None. intros Hin.
    apply (Permutation_in _ (value_counts_keys s)) in Hin.
    apply (proj1 (In_unique v s)) in Hin. apply Hp in Hin. lia.
  - apply lookup_In; [apply value_counts_NoDup|].
    apply value_counts_In. split; [apply Hp; lia | reflexivity].
Qed.

(** ** Counts behind the overview charts: theorems *)

(** [value_counts] lists each value of the column once, with the number of
    its occurrences (at least one), most frequent first, and the counts add
    up to the number of rows. *)
Theorem value_counts_spec (s : list string) :
  NoDup (map fst (value_counts s)) /\
  (forall v c, In (v, c) (value_counts s) <-> In v s /\ c = count v s) /\
  (forall v c, In (v, c) (value_counts s) -> 0 < c) /\
  Sorted (fun a b => snd b <= snd a) (value_counts s) /\
  sum (map snd (value_counts s)) = Z.of_nat (List.length s).
Proof.
  split; [apply value_counts_NoDup|]. split; [apply value_counts_In|].
  split; [|split].
  - intros v c H. apply value_counts_In in H. destruct H as [Hv ->].
    now apply count_pos_iff.
  - apply sort_desc_sorted.
  - rewrite (sum_perm _ _ (Permutation_map snd (value_counts_perm s))).
    rewrite map_map. cbn [snd].
    apply sum_counts; [apply NoDup_unique|]. intros x. apply In_unique.
Qed.

Lemma NoDup_sort_unique (l : list string) : NoDup (sort_str (unique l)).
Proof.
  apply (Permutation_NoDup (l := unique l)).
  - symmetry. apply sort_str_perm.
  - apply NoDup_unique.
Qed.

Lemma In_sort_unique (x : string) (l : list string) :
  In x (sort_str (unique l)) <-> In x l.
Proof. now rewrite In_sort_str, In_unique. Qed.

Lemma count_column_filter (val : Row -> string) (p : Row -> bool)
  (view : DataFrame) (a : string) :
  count a (column val (filter p view)) =
  count_rows (fun r => p r && String.eqb (val r) a) view.
Proof.
  unfold count, count_rows, column. f_equal.
  induction view as [|r view IH]; [reflexivity|].
  cbn [filter]. destruct (p r); cbn [map filter andb]; [|exact IH].
  rewrite (String.eqb_sym a (val r)).
  destruct (String.eqb (val r) a); cbn [List.length]; now rewrite IH.
Qed.

Lemma count_column_key (key : Row -> string) (view : DataFrame) (k : string) :
  count k (column key view) =
  Z.of_nat (List.length (get_group key view k)).
Proof.
  unfold count, column, get_group. f_equal.
  induction view as [|r view IH]; [reflexivity|].
  cbn [map filter]. rewrite (String.eqb_sym k (key r)).
  destruct (String.eqb (key r) k); cbn [List.length]; now rewrite IH.
Qed.

Lemma cell_table {V} (f : string -> list (string * V)) (ks : list string)
  (r c : string) :
  In r ks -> cell (map (fun k => (k, f k)) ks) r c = lookup c (f r).
Proof. intros H. unfold cell. now rewrite lookup_map_key. Qed.


Section GroupByFacts.

Variables key val : Row -> string.

Lemma In_get_group (view : DataFrame) (k : string) (r : Row) :
  In r (get_group key view k) <-> In r view /\ key r = k.
Proof.
  unfold get_group. rewrite filter_In.
  now destruct (String.eqb_spec (key r) k).
Qed.

(** The inner labels of the grouped counts are the values of the column. *)
Lemma groupby_labels (view : DataFrame) (a : string) :
  In a (flat_map (fun g => map fst (snd g))
          (groupby_value_counts key val view)) <->
  In a (column val view).
Proof.
  unfold groupby_value_counts, group_keys. rewrite in_flat_map. split.
  - intros [g [Hg Ha]]. apply in_map_iff in Hg.
    destruct Hg as [k [<- Hk]]. cbn [snd] in Ha.
    apply (Permutation_in _ (value_counts_keys _)) in Ha.
    apply (proj1 (In_unique _ _)) in Ha.
    unfold column in *. apply in_map_iff in Ha.
    destruct Ha as [r [<- Hr]]. apply In_get_group in Hr.
    apply in_map. apply Hr.
  - intros Ha. unfold column in Ha. apply in_map_iff in Ha.
    destruct Ha as [r [<- Hr]].
    exists (key r, value_counts (column val (get_group key view (key r)))).
    split.
    + apply in_map_iff. exists (key r). split; [reflexivity|].
      apply In_sort_unique. unfold column. now apply in_map.
    + cbn [snd].
      apply (Permutation_in _ (Permutation_sym (value_counts_keys _))).
      apply In_unique. unfold column. apply in_map.
      now apply In_get_group.
Qed.


End GroupByFacts.

(** Sum over the column labels of a table row of counts. *)
Lemma row_counts_sum (cols s : list string) :
  NoDup cols -> (forall x, In x s -> In x cols) ->
  sum (map (fun c => match lookup c (value_counts s) with
                     | Some v => v
                     | None => 0
                     end) cols) = Z.of_nat (List.length s).
Proof.
  intros Hnd Hcov. rewrite <- (sum_counts cols s Hnd Hcov). f_equal.
  apply map_ext. intros c. rewrite lookup_value_counts.
  now destruct (Z.eqb_spec (count c s) 0).
Qed.

Lemma dept_attr_rows (view : DataFrame) :
  dept_attr view =
  map (fun k =>
         (k, map (fun c =>
                    (c, match lookup c (value_counts
                                (column Attrition
                                   (get_group Department view k))) with
                        | Some v => v
                        | None => 0
                        end))
               (sort_str (unique (flat_map (fun g => map fst (snd g))
                  (groupby_value_counts Department Attrition view))))))
      (group_keys Department view).
Proof.
  unfold dept_attr, fillna, unstack.
  unfold groupby_value_counts at 2.
  rewrite !map_map. apply map_ext. intros k. cbn [fst snd].
  now rewrite map_map.
Qed.

(** Chart 2: for a department and an attrition value that both occur in the
    view, the cell holds the number of rows with that department and that
    value (0 when there is none); a department's row adds up to its number
    of rows; only departments with a row in the view have a table row. *)
Theorem dept_attr_cells (view : DataFrame) (d a : string) :
  In d (column Department view) -> In a (column Attrition view) ->
  cell (dept_attr view) d a =
  Some (count_rows (fun r => String.eqb (Department r) d &&
                             String.eqb (Attrition r) a) view) /\
  (exists row, lookup d (dept_attr view) = Some row /\
               sum (map snd row) = count d (column Department view)) /\
  forall d', In d' (map fst (dept_attr view)) <->
             In d' (column Department view).
Proof.
  intros Hd Ha. rewrite dept_attr_rows.
  set (cols := sort_str (unique (flat_map (fun g => map fst (snd g))
                 (groupby_value_counts Department Attrition view)))).
  assert (Hk : In d (group_keys Department view))
    by now apply In_sort_unique.
  assert (Hcols : forall x, In x cols <-> In x (column Attrition view)).
  { intros x. unfold cols. rewrite In_sort_unique. apply groupby_labels. }
  split; [|split].
  - rewrite (cell_table _ _ d a Hk).
    rewrite (lookup_map_key _ a cols) by now apply Hcols.
    rewrite lookup_value_counts, <- count_column_filter.
    fold (get_group Department view d).
    now destruct (Z.eqb_spec
      (count a (column Attrition (get_group Department view d))) 0) as [->|].
  - eexists. split; [now apply lookup_map_key|].
    rewrite map_map. cbn [snd]. rewrite row_counts_sum.
    + unfold column at 1. now rewrite length_map, count_column_key.
    + apply NoDup_sort_unique.
    + intros x Hx. apply Hcols. unfold column in *.
      apply in_map_iff in Hx. destruct Hx as [r [<- Hr]].
      apply in_map. apply In_get_group in Hr. apply Hr.
  - intros d'. rewrite map_map. cbn [fst]. rewrite map_id.
    apply In_sort_unique.
Qed.

Lemma dept_attr_cells_witness :
  let view := [mkRow "Sales" "Male" 29 "Yes" 1000;
               mkRow "HR" "Female" 41 "No" 2000;
               mkRow "Sales" "Female" 35 "No" 1500] in
  In "HR" (column Department view) /\ In "Yes" (column Attrition view) /\
  cell (dept_attr view) "HR" "Yes" = Some 0.
Proof.
  intros view.
  assert (H1 : In "HR" (column Department view)) by (right; now left).
  assert (H2 : In "Yes" (column Attrition view)) by now left.
  split; [exact H1|]. split; [exact H2|].
  exact (proj1 (dept_attr_cells view "HR" "Yes" H1 H2)).
Defined.






Lemma attrition_rate_nearest (view : DataFrame) :
  view <> [] -> Z.of_nat (List.length view) <= 2 ^ 32 ->
  exists k : Z,
    attrition_rate view = Fin (Py.fl64 (k # 100)) /\
    nearest_integer ((Z.of_nat (count_yes view) * 10000)
                     # Pos.of_nat (List.length view)) k.
Proof.
  intros Hne Hlen.
  destruct (attrition_rate_hundredths view Hne) as [k [Hv [Hk [He Hkd]]]].
  exists k. split; [exact Hv|]. rewrite Hkd.
  apply (near_after_error _ _ _ _ He).
  pose proof (pos_of_nat_length view Hne) as Hp.
  unfold Qlt, Qmult, ulp_half, inject_Z. cbn [Qnum Qden].
  rewrite Pos2Z.inj_mul, Hp. lia.
Qed.

(** Chart 1 and the Attrition Rate metric agree on a non-empty view (of at
    most 2^32 rows): the "Yes" entry of [value_counts] is the number of
    leavers, the counts total the number of rows, and the metric is the
    binary64 computation of 100 * yes / total rounded to two decimals,
    which shows a nearest hundredth of that percentage. *)
Theorem attrition_rate_from_value_counts (view : DataFrame) :
  view <> [] ->
  Z.of_nat (List.length view) <= 2 ^ 32 ->
  let vc := value_counts (column Attrition view) in
  let yes := match lookup "Yes" vc with Some c => c | None => 0 end in
  let total := sum (map snd vc) in
  yes = Z.of_nat (count_yes view) /\
  total = Z.of_nat (List.length view) /\
  attrition_rate view =
  Py.round (Py.mul (Fin (Py.fl64 (yes # Z.to_pos total))) 100) 2 /\
  exists k : Z,
    attrition_rate view = Fin (Py.fl64 (k # 100)) /\
    nearest_integer ((yes * 10000) # Z.to_pos total) k.
Proof.
  intros Hne Hlen vc yes total.
  assert (Hyes : yes = Z.of_nat (count_yes view)).
  { subst yes vc. rewrite lookup_value_counts.
    assert (E : count "Yes" (column Attrition view) =
                Z.of_nat (count_yes view)).
    { rewrite <- (filter_all_true (fun _ => true) view) at 1
        by reflexivity.
      rewrite count_column_filter. reflexivity. }
    rewrite E. now destruct (Z.eqb_spec (Z.of_nat (count_yes view)) 0) as [->|]. }
  assert (Htot : total = Z.of_nat (List.length view)).
  { subst total vc.
    rewrite (sum_perm _ _ (Permutation_map snd (value_counts_perm _))).
    rewrite map_map. cbn [snd]. rewrite sum_counts.
    - unfold column. now rewrite length_map.
    - apply NoDup_unique.
    - intros x. apply In_unique. }
  assert (Hpos : Z.to_pos total = Pos.of_nat (List.length view)).
  { rewrite Htot. destruct view as [|r view]; [contradiction|].
    cbn [List.length Z.of_nat Z.to_pos]. apply Pos.of_nat_succ. }
  split; [exact Hyes|]. split; [exact Htot|].
  rewrite Hpos, Hyes. split.
  - now rewrite attrition_rate_value.
  - now apply attrition_rate_nearest.
Qed.

Lemma attrition_rate_from_value_counts_witness :
  let view := [mkRow "Sales" "Male" 29 "Yes" 1000;
               mkRow "HR" "Female" 41 "No" 2000;
               mkRow "Sales" "Male" 35 "No" 1500] in
  view <> [] /\ Z.of_nat (List.length view) <= 2 ^ 32 /\
  attrition_rate view =
  Py.round (Py.mul (Fin (Py.fl64 (1 # 3))) 100) 2.
Proof.
  intros view.
  assert (H : view <> []) by discriminate.
  assert (H2 : Z.of_nat (List.length view) <= 2 ^ 32) by (cbn; lia).
  split; [exact H|]. split; [exact H2|].
  exact (proj1 (proj2 (proj2 (attrition_rate_from_value_counts view H H2)))).
Defined.

(** ** Data loader: further properties *)

Section LoaderRetries.

Variable File : Type.
Variable read_csv : File -> result DataFrame.

Lemma load_many_app (l1 l2 : list File) (c : Cache) :
  load_many File read_csv (l1 ++ l2)%list c =
  ((fst (load_many File read_csv l1 c) ++
    fst (load_many File read_csv l2
           (snd (load_many File read_csv l1 c))))%list,
   snd (load_many File read_csv l2 (snd (load_many File read_csv l1 c)))).
Proof.
  revert c. induction l1 as [|d l1 IH]; intros c.
  - cbn [app load_many fst snd]. now destruct (load_many File read_csv l2 c).
  - cbn [app load_many]. destruct (load_data File read_csv d c) as [r c1].
    rewrite IH. destruct (load_many File read_csv l1 c1) as [rs c2].
    reflexivity.
Qed.

Lemma load_many_miss (bad : list File) (c : Cache) :
  entry c = None ->
  Forall (fun d => exists e, read_csv d = Raise e) bad ->
  load_many File read_csv bad c =
  (map read_csv bad, mkCache None (List.length bad + reads c)).
Proof.
  revert c. induction bad as [|d bad IH]; intros c Hc Hbad.
  - destruct c as [e n]. cbn in *. now subst.
  - inversion Hbad as [|? ? [e He] Hbad']; subst.
    cbn [load_many map List.length]. unfold load_data. rewrite Hc, He.
    rewrite IH by (try reflexivity; assumption).
    cbn [reads]. do 2 f_equal. lia.
Qed.

(** A call whose read fails caches nothing: the calls fail one by one, each
    reading the file again, until a read succeeds; from then on every call
    returns that dataset and the file is not read any more. *)
Theorem load_data_retries_until_success (bad later : list File)
  (good : File) (df : DataFrame) :
  Forall (fun d => exists e, read_csv d = Raise e) bad ->
  read_csv good = Ok df ->
  let run := load_many File read_csv (bad ++ good :: later)%list fresh in
  fst run = (map read_csv bad ++
             Ok df :: repeat (Ok df) (List.length later))%list /\
  Forall (fun r => exists e, r = Raise e) (map read_csv bad) /\
  entry (snd run) = Some df /\
  reads (snd run) = S (List.length bad).
Proof.
  intros Hbad Hgood run. subst run.
  rewrite load_many_app, (load_many_miss bad fresh eq_refl Hbad).
  cbn [fst snd load_many]. unfold load_data. cbn [entry reads fresh].
  rewrite Hgood.
  rewrite (load_many_hit File read_csv later
             (mkCache (Some df) (S (List.length bad + 0))) df eq_refl).
  cbn [fst snd entry reads]. split; [reflexivity|]. split.
  - apply Forall_forall. intros r Hr. apply in_map_iff in Hr.
    destruct Hr as [d [<- Hd]].
    now apply (proj1 (Forall_forall _ _) Hbad).
  - split; [reflexivity|]. f_equal. lia.
Qed.

End LoaderRetries.

Lemma load_data_retries_until_success_witness :
  let read := fun f : option DataFrame =>
                match f with
                | Some d => Ok d
                | None => Raise FileNotFoundError
                end in
  let d0 := [mkRow "Sales" "Male" 20 "Yes" 1000] in
  let d1 := [mkRow "HR" "Female" 41 "No" 2000] in
  Forall (fun d => exists e, read d = Raise e) [None; None] /\
  read (Some d0) = Ok d0 /\
  fst (load_many _ read ([None; None] ++ Some d0 :: [Some d1; None])%list
         fresh) =
  [Raise FileNotFoundError; Raise FileNotFoundError; Ok d0; Ok d0; Ok d0].
Proof.
  intros read d0 d1.
  assert (H1 : Forall (fun d => exists e, read d = Raise e) [None; None]).
  { repeat constructor; now exists FileNotFoundError. }
  assert (H2 : read (Some d0) = Ok d0) by reflexivity.
  split; [exact H1|]. split; [exact H2|].
  exact (proj1 (load_data_retries_until_success _ read [None; None]
                  [Some d1; None] (Some d0) d0 H1 H2)).
Defined.

(** ** Charts over a filtered view *)

(** Chart 2 over a filtered view has a row only for selected departments
    that have at least one matching row: a deselected department never
    shows. *)
Theorem dept_attr_only_selected df ds gs lo hi (d : string) :
  In d (map fst (dept_attr (filtered_df df ds gs (lo, hi)))) <->
  exists r, In r df /\ selected ds gs lo hi r /\ Department r = d.
Proof.
  rewrite dept_attr_rows, map_map. cbn [fst]. rewrite map_id.
  unfold group_keys. rewrite In_sort_unique. unfold column.
  rewrite in_map_iff. split.
  - intros [r [E Hr]]. exists r. rewrite filtered_df_filter in Hr.
    apply filter_In in Hr. destruct Hr as [Hr Hs].
    apply selectedb_spec in Hs. auto.
  - intros [r [Hr [Hs E]]]. exists r. split; [exact E|].
    rewrite filtered_df_filter. apply filter_In.
    split; [exact Hr | now apply selectedb_spec].
Qed.
